(** * The memories plugin of lifejs: a shallow embedding

    Sources embedded here:
    - [plugins/memories/definition.ts]: the memory configuration schema, the
      definition record, its builder and [defineMemory];
    - [plugins/memories/memories.ts]: [buildMemory], the interceptor, the two
      services and the two effects of the plugin.

    JavaScript [Map]s are finite maps ([gmap]), the [Set] of request ids is a
    [gset], arrays are lists, [Date.now()] readings are integers, and a
    promise is the outcome it settles with. *)

From Stdlib Require Import ZArith QArith Lia Ascii.
From stdpp Require Import gmap strings list fin_maps.

(** ** Messages and event payloads *)

(** [Message] comes from [@/agent/resources]; the plugin never looks inside a
    message, it only moves messages between arrays. The two fields every
    message carries in the sources at hand are kept. *)
Inductive Role := user | agent | system | tool_response.

Record Message := { role : Role; content : string }.

#[global] Instance Role_eq_dec : EqDecision Role.
Proof. solve_decision. Defined.

#[global] Instance Message_eq_dec : EqDecision Message.
Proof. solve_decision. Defined.

(** Payload of [agent.resources-response], [build-request] and
    [build-response]: a request identifier, the message array, and fields the
    plugin copies untouched with [...event.data]. *)
Record ResourcesData := {
  requestId : string;
  messages : list Message;
  passthrough : list (string * string)
}.

(** [{ ...event.data, messages: ms }] *)
Definition with_messages (data : ResourcesData) (ms : list Message) : ResourcesData :=
  {| requestId := requestId data; messages := ms; passthrough := passthrough data |}.

(** The three events the plugin declares. *)
Inductive Event :=
| BuildRequest (data : ResourcesData)
| BuildResponse (data : ResourcesData)
| MemoryResult (name : string) (msgs : list Message) (timestamp : Z).

(** An event of a dependency, as the interceptor receives it. *)
Record DependencyEvent := { dep_type : string; dep_data : ResourcesData }.

(** What awaiting a promise gives: a value, an exception, or nothing ever. *)
Inductive Outcome (A : Type) :=
| Resolved (a : A)
| Rejected (err : string)
| Pending.
Arguments Resolved {A} a.
Arguments Rejected {A} err.
Arguments Pending {A}.

(** ** definition.ts *)

Inductive Behavior := blocking | non_blocking.

#[global] Instance Behavior_eq_dec : EqDecision Behavior.
Proof. solve_decision. Defined.

(** [MemoryConfig<"input">] and [MemoryConfig<"output">] *)
Record MemoryConfigInput := { behavior_in : option Behavior }.
Record MemoryConfig := { behavior : Behavior }.

(** [memoryConfigSchema.parse]: [z.enum([...]).default("blocking")] *)
Definition memoryConfigSchema_parse (input : MemoryConfigInput) : MemoryConfig :=
  {| behavior := default blocking (behavior_in input) |}.

(** [getOutput?: Message[] | ((params) => Message[] | Promise<Message[]>)] *)
Inductive GetOutput :=
| OutputMessages (ms : list Message)
| OutputFunction (f : list Message -> Outcome (list Message)).

Record MemoryDependencies := { stores : list string; collections : list string }.

Record MemoryDefinition := {
  name : string;
  config : MemoryConfig;
  getOutput : option GetOutput;
  onHistoryChange : option (list Message -> unit);
  dependencies : MemoryDependencies
}.

(** The builder class holds one private field, [#def]. *)
Record MemoryDefinitionBuilder := Builder { _definition : MemoryDefinition }.

(** The four chained methods: each returns a new builder over [{ ...this.#def, field }]. *)
Definition builder_dependencies (this : MemoryDefinitionBuilder) (deps : MemoryDependencies)
  : MemoryDefinitionBuilder :=
  let def := _definition this in
  Builder {| name := name def; config := config def; getOutput := getOutput def;
             onHistoryChange := onHistoryChange def; dependencies := deps |}.

Definition builder_config (this : MemoryDefinitionBuilder) (input : MemoryConfigInput)
  : MemoryDefinitionBuilder :=
  let def := _definition this in
  let parsedConfig := memoryConfigSchema_parse input in
  Builder {| name := name def; config := parsedConfig; getOutput := getOutput def;
             onHistoryChange := onHistoryChange def; dependencies := dependencies def |}.

Definition builder_getOutput (this : MemoryDefinitionBuilder) (params : GetOutput)
  : MemoryDefinitionBuilder :=
  let def := _definition this in
  Builder {| name := name def; config := config def; getOutput := Some params;
             onHistoryChange := onHistoryChange def; dependencies := dependencies def |}.

Definition builder_onHistoryChange (this : MemoryDefinitionBuilder)
    (f : list Message -> unit) : MemoryDefinitionBuilder :=
  let def := _definition this in
  Builder {| name := name def; config := config def; getOutput := getOutput def;
             onHistoryChange := Some f; dependencies := dependencies def |}.

Definition defineMemory (name : string) : MemoryDefinitionBuilder :=
  Builder {| name := name;
             config := memoryConfigSchema_parse {| behavior_in := None |};
             getOutput := None;
             onHistoryChange := None;
             dependencies := {| stores := []; collections := [] |} |}.

(** ** memories.ts *)

(** [stableObjectSHA256] is imported from [@/shared/stable-sha256]; the plugin
    uses it as a function from the object [{ messages }] to a hash string and
    nothing more, so the handlers take it as an interface. *)
Class StableHash := stableObjectSHA256 : list Message -> string.

Record CacheEntry := { hash : string; memories : list Message }.

(** The plugin context: the four shared collections. *)
Record Context := {
  memoriesLastResults : gmap string (list Message);
  memoriesLastTimestamp : gmap string Z;
  processedRequestsIds : gset string;
  computedMemoriesCache : gmap string CacheEntry
}.

Definition initial_context : Context :=
  {| memoriesLastResults := ∅; memoriesLastTimestamp := ∅;
     processedRequestsIds := ∅; computedMemoriesCache := ∅ |}.

(** The plugin configuration: [items], default [[]]. *)
Record Config := { items : list MemoryDefinitionBuilder }.

(** [buildMemory]: call [getOutput] when it is a function, otherwise return the
    array, or [[]] when the definition has none. *)
Definition buildMemory (memory : MemoryDefinitionBuilder) (msgs : list Message)
  : Outcome (list Message) :=
  match getOutput (_definition memory) with
  | Some (OutputFunction f) => f msgs
  | Some (OutputMessages ms) => Resolved ms
  | None => Resolved []
  end.

(** Call-count instrumentation: the indices of the items of behavior [b] whose
    [getOutput] is a function, in the order [buildMemory] reaches them. *)
Fixpoint invoked_from (index : nat) (b : Behavior) (rest : list MemoryDefinitionBuilder)
  : list nat :=
  match rest with
  | [] => []
  | item :: rest' =>
      let def := _definition item in
      match getOutput def with
      | Some (OutputFunction _) =>
          if decide (behavior (config def) = b)
          then index :: invoked_from (S index) b rest'
          else invoked_from (S index) b rest'
      | _ => invoked_from (S index) b rest'
      end
  end.

Definition invoked (b : Behavior) (cfg : Config) : list nat :=
  invoked_from 0 b (items cfg).

(** *** The interceptor [intercept-core-resources-response] *)

(** What one run of the interceptor did: the reason given to [drop] (if it was
    called) and the events given to [emit]. *)
Record Interception := { dropped : option string; intercepted : list Event }.

Definition untouched : Interception := {| dropped := None; intercepted := [] |}.

Definition intercept_core_resources_response
    (context : Context) (dependencyName : string) (event : DependencyEvent)
  : Interception :=
  if negb (String.eqb dependencyName "core")
     || negb (String.eqb (dep_type event) "agent.resources-response")
  then untouched
  else if bool_decide (requestId (dep_data event) ∈ processedRequestsIds context)
  then untouched
  else {| dropped := Some "Will be re-emitted by memories later.";
          intercepted := [BuildRequest (dep_data event)] |}.

(** *** The service [build-non-blocking-memories] *)

(** One run of the loop body: events emitted by the [.then] callbacks, the
    providers whose failure [.catch] logged, and the calls made. *)
Record NonBlockingRun := {
  nb_emitted : list Event;
  nb_logged : list (string * string);
  nb_invoked : list nat
}.

Definition nb_nothing : NonBlockingRun :=
  {| nb_emitted := []; nb_logged := []; nb_invoked := [] |}.

(** The promise of item [index] settles: [.then] emits, [.catch] logs. *)
Definition nb_settle (cfg : Config) (msgs : list Message) (timestamp : Z)
    (acc : NonBlockingRun) (index : nat) : NonBlockingRun :=
  match items cfg !! index with
  | None => acc
  | Some item =>
      let def := _definition item in
      match behavior (config def) with
      | blocking => acc
      | non_blocking =>
          match buildMemory item msgs with
          | Resolved ms =>
              {| nb_emitted := nb_emitted acc ++ [MemoryResult (name def) ms timestamp];
                 nb_logged := nb_logged acc; nb_invoked := nb_invoked acc |}
          | Rejected err =>
              {| nb_emitted := nb_emitted acc;
                 nb_logged := nb_logged acc ++ [(name def, err)];
                 nb_invoked := nb_invoked acc |}
          | Pending => acc
          end
      end
  end.

(** [order] is the order in which the fire-and-forget promises settle;
    [timestamp] is the [Date.now()] read before the loop over the items. *)
Definition build_non_blocking_memories (cfg : Config) (order : list nat) (timestamp : Z)
    (event : Event) : NonBlockingRun :=
  match event with
  | BuildRequest data =>
      foldl (nb_settle cfg (messages data) timestamp)
            {| nb_emitted := []; nb_logged := []; nb_invoked := invoked non_blocking cfg |}
            order
  | _ => nb_nothing
  end.

(** *** The service [build-memories] *)

(** State of the blocking fan-out: the [blockingResults] map, the
    [memory-result] events emitted so far, the first rejection (the one
    [Promise.all] rejects with) and whether some promise never settles. *)
Record FanOut := {
  blockingResults : gmap nat (list Message);
  fan_emitted : list Event;
  fan_rejected : option string;
  fan_pending : bool
}.

Definition fan_start : FanOut :=
  {| blockingResults := ∅; fan_emitted := []; fan_rejected := None; fan_pending := false |}.

(** The callback of [config.items.map] for item [index] reaches the end of its
    [await]: on success it fills [blockingResults] and emits [memory-result]
    with the shared [timestamp]; a callback of a non-blocking item returned at
    once and does nothing. *)
Definition settle (cfg : Config) (msgs : list Message) (timestamp : Z)
    (acc : FanOut) (index : nat) : FanOut :=
  match items cfg !! index with
  | None => acc
  | Some item =>
      let def := _definition item in
      match behavior (config def) with
      | non_blocking => acc
      | blocking =>
          match buildMemory item msgs with
          | Resolved ms =>
              {| blockingResults := <[index := ms]> (blockingResults acc);
                 fan_emitted := fan_emitted acc ++ [MemoryResult (name def) ms timestamp];
                 fan_rejected := fan_rejected acc;
                 fan_pending := fan_pending acc |}
          | Rejected err =>
              {| blockingResults := blockingResults acc;
                 fan_emitted := fan_emitted acc;
                 fan_rejected := Some (default err (fan_rejected acc));
                 fan_pending := fan_pending acc |}
          | Pending =>
              {| blockingResults := blockingResults acc;
                 fan_emitted := fan_emitted acc;
                 fan_rejected := fan_rejected acc;
                 fan_pending := true |}
          end
      end
  end.

(** The fan-out under a completion order [sched] (a list of item indices). *)
Definition blocking_fan_out (cfg : Config) (msgs : list Message) (timestamp : Z)
    (sched : list nat) : FanOut :=
  foldl (settle cfg msgs timestamp) fan_start sched.

(** One step of the final [for] loop, lines 140-152: [memoriesMessages.push]. *)
Definition merge_step (cfg : Config) (results : gmap nat (list Message))
    (lastResults : gmap string (list Message))
    (memoriesMessages : list Message) (i : nat) : list Message :=
  match items cfg !! i with
  | None => memoriesMessages
  | Some item =>
      let def := _definition item in
      match behavior (config def) with
      | blocking => memoriesMessages ++ default [] (results !! i)
      | non_blocking => memoriesMessages ++ default [] (lastResults !! name def)
      end
  end.

Definition merge_loop (cfg : Config) (results : gmap nat (list Message))
    (lastResults : gmap string (list Message)) : list Message :=
  foldl (merge_step cfg results lastResults) [] (seq 0 (length (items cfg))).

(** How one run of the loop body of a service ended. *)
Inductive Completion :=
| Skipped
| Responded
| Threw (err : string)
| Suspended.

Record ServiceRun := {
  run_context : Context;
  run_emitted : list Event;
  run_invoked : list nat;
  run_completion : Completion
}.

(** [context.computedMemoriesCache.set(messagesHash, entry)]. The array in
    the entry is the one the loop has just filled with [push(...)]: a copy of
    the messages, which shares nothing with the arrays of the result store. *)
Definition cache_set (messagesHash : string) (entry : CacheEntry) (context : Context)
  : Context :=
  {| memoriesLastResults := memoriesLastResults context;
     memoriesLastTimestamp := memoriesLastTimestamp context;
     processedRequestsIds := processedRequestsIds context;
     computedMemoriesCache := <[messagesHash := entry]> (computedMemoriesCache context) |}.

(** One run of the loop body of [build-memories] on [event].
    The context is one shared object, and the body is suspended at
    [await Promise.all] while effects go on changing it: [context] is the
    object as the body finds it at the cache lookup (line 105), [atMerge] as it
    finds it when it resumes (lines 149 and 155). [sched] is the order in
    which the blocking callbacks settle and [timestamp] the [Date.now()] of
    line 121. *)
Definition build_memories `{StableHash} (cfg : Config) (sched : list nat) (timestamp : Z)
    (event : Event) (context atMerge : Context) : ServiceRun :=
  match event with
  | BuildRequest data =>
      let messagesHash := stableObjectSHA256 (messages data) in
      match computedMemoriesCache context !! messagesHash with
      | Some cachedResult =>
          {| run_context := context;
             run_emitted := [BuildResponse (with_messages data (memories cachedResult))];
             run_invoked := [];
             run_completion := Responded |}
      | None =>
          let fan := blocking_fan_out cfg (messages data) timestamp sched in
          match fan_rejected fan with
          | Some err =>
              {| run_context := atMerge;
                 run_emitted := fan_emitted fan;
                 run_invoked := invoked blocking cfg;
                 run_completion := Threw err |}
          | None =>
              if fan_pending fan then
                {| run_context := atMerge;
                   run_emitted := fan_emitted fan;
                   run_invoked := invoked blocking cfg;
                   run_completion := Suspended |}
              else
                let memoriesMessages :=
                  merge_loop cfg (blockingResults fan) (memoriesLastResults atMerge) in
                {| run_context :=
                     cache_set messagesHash
                       {| hash := messagesHash; memories := memoriesMessages |} atMerge;
                   run_emitted :=
                     fan_emitted fan ++ [BuildResponse (with_messages data memoriesMessages)];
                   run_invoked := invoked blocking cfg;
                   run_completion := Responded |}
          end
      end
  | _ =>
      {| run_context := context; run_emitted := []; run_invoked := [];
         run_completion := Skipped |}
  end.

(** *** The effect [store-memory-result] *)

Definition store_memory_result (event : Event) (context : Context) : Context :=
  match event with
  | MemoryResult name msgs timestamp =>
      let currentTimestamp := default 0%Z (memoriesLastTimestamp context !! name) in
      if (timestamp >=? currentTimestamp)%Z then
        {| memoriesLastResults := <[name := msgs]> (memoriesLastResults context);
           memoriesLastTimestamp := <[name := timestamp]> (memoriesLastTimestamp context);
           processedRequestsIds := processedRequestsIds context;
           computedMemoriesCache := computedMemoriesCache context |}
      else context
  | _ => context
  end.

(** The timestamp the effect compares with: [get(name) ?? 0]. *)
Definition stored_timestamp (context : Context) (name : string) : Z :=
  default 0%Z (memoriesLastTimestamp context !! name).

(** The effect run on a sequence of events, in their order of arrival. *)
Definition store_all (events : list Event) (context : Context) : Context :=
  foldl (fun c e => store_memory_result e c) context events.

(** *** The effect [re-emit-build-response] *)

(** Returns the context and the payloads handed to [dependencies.core.emit]
    as [agent.resources-response]. *)
Definition re_emit_build_response (event : Event) (context : Context)
  : Context * list ResourcesData :=
  match event with
  | BuildResponse data =>
      ({| memoriesLastResults := memoriesLastResults context;
          memoriesLastTimestamp := memoriesLastTimestamp context;
          processedRequestsIds := {[ requestId data ]} ∪ processedRequestsIds context;
          computedMemoriesCache := computedMemoriesCache context |},
       [data])
  | _ => (context, [])
  end.

(** The merge as the specification words it: the concatenation, in registry
    order, of one segment per provider. *)
Definition fresh_output (item : MemoryDefinitionBuilder) (msgs : list Message)
  : list Message :=
  match buildMemory item msgs with
  | Resolved ms => ms
  | _ => []
  end.

Definition segment (msgs : list Message) (lastResults : gmap string (list Message))
    (item : MemoryDefinitionBuilder) : list Message :=
  let def := _definition item in
  match behavior (config def) with
  | blocking => fresh_output item msgs
  | non_blocking => default [] (lastResults !! name def)
  end.

Definition merged_in_registry_order (cfg : Config) (msgs : list Message)
    (lastResults : gmap string (list Message)) : list Message :=
  concat (map (segment msgs lastResults) (items cfg)).

(** ** The event runtime *)

(** Modelled from the spec: the event runtime ([definePlugin] and the core
    plugin are not among the sources). Section 6 asks of it: an interceptor
    may drop a dependency event and emit its own; services consume the emitted
    events; effects run synchronously on every emitted event; what
    [dependencies.core.emit] emits is again an event of the dependency "core"
    and so reaches the interceptor. One upstream event is followed until
    nothing is left to do. *)
Module Runtime.

(** What the environment decides for one request: the two clock readings,
    the order in which the promises of each service settle, and how many of
    the non-blocking results are stored before the merge (the others come
    after the response). *)
Record Timing := {
  nb_now : Z;
  nb_order : list nat;
  nb_early : nat;
  b_now : Z;
  b_order : list nat
}.

Record World := {
  world_context : Context;
  trace : list Event;
  core_emitted : list ResourcesData;
  passed : list ResourcesData;
  calls : list nat
}.

Definition initial_world : World :=
  {| world_context := initial_context; trace := []; core_emitted := [];
     passed := []; calls := [] |}.

(** The effect [re-emit-build-response] on one emitted event, then the
    runtime's delivery ([deliver]) of what it gave to the core plugin. *)
Definition forward (deliver : ResourcesData -> World -> option World)
    (ow : option World) (event : Event) : option World :=
  w ← ow;
  let '(context', outs) := re_emit_build_response event (world_context w) in
  foldl (fun ow' out => w' ← ow'; deliver out w')
        (Some {| world_context := context'; trace := trace w;
                 core_emitted := core_emitted w ++ outs;
                 passed := passed w; calls := calls w |})
        outs.

(** Modelled from the spec: a [build-request] reaches both services, which
    run side by side (sections 4.3 and 4.4). *)
Definition on_build_request `{StableHash} (cfg : Config) (tm : Timing)
    (deliver : ResourcesData -> World -> option World)
    (data : ResourcesData) (w : World) : option World :=
  let nb := build_non_blocking_memories cfg (nb_order tm) (nb_now tm) (BuildRequest data) in
  let early := take (nb_early tm) (nb_emitted nb) in
  let late := drop (nb_early tm) (nb_emitted nb) in
  let context := store_all early (world_context w) in
  let fan := blocking_fan_out cfg (messages data) (b_now tm) (b_order tm) in
  let atMerge := store_all (fan_emitted fan) context in
  let run := build_memories cfg (b_order tm) (b_now tm) (BuildRequest data) context atMerge in
  w' ← foldl (forward deliver)
       (Some {| world_context := run_context run;
                trace := trace w ++ BuildRequest data :: early ++ run_emitted run;
                core_emitted := core_emitted w;
                passed := passed w;
                calls := calls w ++ nb_invoked nb ++ run_invoked run |})
       (run_emitted run);
  Some {| world_context := store_all late (world_context w');
          trace := trace w' ++ late;
          core_emitted := core_emitted w';
          passed := passed w';
          calls := calls w' |}.

(** Modelled from the spec: delivery of an [agent.resources-response]
    event of the core plugin. The interceptor runs first; an event it did
    not drop goes on to the other consumers unchanged ([passed]). *)
Fixpoint core_dispatch `{StableHash} (fuel : nat) (cfg : Config) (tm : Timing)
    (data : ResourcesData) (w : World) : option World :=
  match fuel with
  | O => None
  | S fuel' =>
      let i := intercept_core_resources_response (world_context w) "core"
                 {| dep_type := "agent.resources-response"; dep_data := data |} in
      match dropped i with
      | None =>
          Some {| world_context := world_context w; trace := trace w;
                  core_emitted := core_emitted w;
                  passed := passed w ++ [data]; calls := calls w |}
      | Some _ =>
          foldl (fun ow e =>
                   w' ← ow;
                   match e with
                   | BuildRequest d =>
                       on_build_request cfg tm (core_dispatch fuel' cfg tm) d w'
                   | _ => Some w'
                   end)
                (Some w) (intercepted i)
      end
  end.

(** An upstream event is submitted. Two rounds of delivery are all it ever
    takes: the event itself, and the one the forwarder emits. *)
Definition submit `{StableHash} (cfg : Config) (tm : Timing) (data : ResourcesData)
    (w : World) : option World :=
  core_dispatch 2 cfg tm data w.

End Runtime.

(** ** Notions the statements below use *)

(** The item at [index] when it is a blocking one. *)
Definition blocking_item (cfg : Config) (index : nat) : option MemoryDefinitionBuilder :=
  item ← items cfg !! index;
  if decide (behavior (config (_definition item)) = blocking) then Some item else None.

(** The [memory-result] event the callback of item [index] emits, if any. *)
Definition emission (cfg : Config) (msgs : list Message) (timestamp : Z) (index : nat)
  : option Event :=
  item ← blocking_item cfg index;
  match buildMemory item msgs with
  | Resolved ms => Some (MemoryResult (name (_definition item)) ms timestamp)
  | _ => None
  end.

(** Under [n] the two maps hold nothing, or the payload and the timestamp
    of one event of [evs]. *)
Definition consistent_at (evs : list Event) (c : Context) (n : string) : Prop :=
  match memoriesLastResults c !! n, memoriesLastTimestamp c !! n with
  | None, None => True
  | Some ms, Some t => MemoryResult n ms t ∈ evs
  | _, _ => False
  end.

(** Event kinds, as the handlers test [event.type]. *)
Definition is_build_response (e : Event) : bool :=
  match e with BuildResponse _ => true | _ => false end.

Definition is_memory_result (e : Event) : bool :=
  match e with MemoryResult _ _ _ => true | _ => false end.

(** ** The fingerprint *)

(** Modelled from the spec: [stableObjectSHA256] of [@/shared/stable-sha256]
    is not among the sources. Sections 2 and 4.1 describe it as a
    deterministic content hash of the ordered message list with a 256-bit
    digest, and its name says how: SHA-256 (FIPS 180-4) over a stable
    serialization of the object, that is its JSON text with the keys of every
    object in sorted order. The digest is printed as 64 hexadecimal digits,
    the key type of [computedMemoriesCache]. *)
Module StableSha256.

Local Open Scope Z_scope.

(** *** SHA-256 on 32-bit words held in [Z] *)

Definition w32 (x : Z) : Z := x mod 2 ^ 32.
Definition add32 (x y : Z) : Z := w32 (x + y).
Definition rotr (n x : Z) : Z := Z.lor (Z.shiftr x n) (w32 (Z.shiftl x (32 - n))).
Definition shr (n x : Z) : Z := Z.shiftr x n.
Definition not32 (x : Z) : Z := Z.lxor x 0xffffffff.

Definition Ch (x y z : Z) : Z := Z.lxor (Z.land x y) (Z.land (not32 x) z).
Definition Maj (x y z : Z) : Z :=
  Z.lxor (Z.lxor (Z.land x y) (Z.land x z)) (Z.land y z).
Definition Sigma0 (x : Z) : Z := Z.lxor (Z.lxor (rotr 2 x) (rotr 13 x)) (rotr 22 x).
Definition Sigma1 (x : Z) : Z := Z.lxor (Z.lxor (rotr 6 x) (rotr 11 x)) (rotr 25 x).
Definition sigma0 (x : Z) : Z := Z.lxor (Z.lxor (rotr 7 x) (rotr 18 x)) (shr 3 x).
Definition sigma1 (x : Z) : Z := Z.lxor (Z.lxor (rotr 17 x) (rotr 19 x)) (shr 10 x).

(** The constants of FIPS 180-4, from their definition: the first 32 bits
    of the fractional parts of the cube roots (for [K]) and of the square
    roots (for the initial hash value) of the first primes. *)
Definition is_prime (p : Z) : bool :=
  forallb (fun d => negb (p mod d =? 0)) (seqZ 2 (p - 2)).

Definition first_primes (n : nat) : list Z :=
  take n (List.filter is_prime (seqZ 2 400)).

(** The largest [r] below [2 ^ bits] with [r ^ k <= x]. *)
Fixpoint root_bits (k x : Z) (bits : nat) (r : Z) : Z :=
  match bits with
  | O => r
  | S bits' =>
      let r' := r + 2 ^ Z.of_nat bits' in
      root_bits k x bits' (if (r' ^ k <=? x) then r' else r)
  end.

Definition fractional_root (k p : Z) : Z :=
  w32 (root_bits k (p * 2 ^ (32 * k)) 40 0).

Definition K : list Z :=
  Eval vm_compute in map (fractional_root 3) (first_primes 64).

Definition initial_hash : list Z :=
  Eval vm_compute in map (fractional_root 2) (first_primes 8).

(** [n] bytes of [x], most significant first. *)
Fixpoint be_bytes (n : nat) (x : Z) : list Z :=
  match n with
  | O => []
  | S n' => be_bytes n' (x / 256) ++ [x mod 256]
  end.

(** Padding: the bit 1, zeros up to 56 modulo 64, the bit length on 8 bytes. *)
Definition pad (bytes : list Z) : list Z :=
  let len := Z.of_nat (length bytes) in
  bytes ++ [0x80] ++ repeat 0 (Z.to_nat ((55 - len) mod 64)) ++ be_bytes 8 (8 * len).

Fixpoint words (bytes : list Z) : list Z :=
  match bytes with
  | b0 :: b1 :: b2 :: b3 :: rest =>
      (b0 * 2 ^ 24 + b1 * 2 ^ 16 + b2 * 2 ^ 8 + b3) :: words rest
  | _ => []
  end.

Fixpoint blocks (n : nat) (ws : list Z) : list (list Z) :=
  match n with
  | O => []
  | S n' => take 16 ws :: blocks n' (drop 16 ws)
  end.

(** The message schedule: 48 more words after the 16 of the block. *)
Definition extend (W : list Z) (t : nat) : list Z :=
  W ++ [add32 (add32 (sigma1 (nth (t - 2) W 0)) (nth (t - 7) W 0))
              (add32 (sigma0 (nth (t - 15) W 0)) (nth (t - 16) W 0))].

Definition schedule (block : list Z) : list Z :=
  foldl extend block (seq 16 48).

Definition round (s : Z * Z * Z * Z * Z * Z * Z * Z) (kw : Z * Z)
  : Z * Z * Z * Z * Z * Z * Z * Z :=
  let '(a, b, c, d, e, f, g, h) := s in
  let T1 := add32 (add32 (add32 h (Sigma1 e)) (add32 (Ch e f g) kw.1)) kw.2 in
  let T2 := add32 (Sigma0 a) (Maj a b c) in
  (add32 T1 T2, a, b, c, add32 d T1, e, f, g).

Definition compress (st : list Z) (block : list Z) : list Z :=
  match st with
  | [h0; h1; h2; h3; h4; h5; h6; h7] =>
      let '(a, b, c, d, e, f, g, h) :=
        foldl round (h0, h1, h2, h3, h4, h5, h6, h7) (zip K (schedule block)) in
      [add32 h0 a; add32 h1 b; add32 h2 c; add32 h3 d;
       add32 h4 e; add32 h5 f; add32 h6 g; add32 h7 h]
  | _ => st
  end.

Definition sha256 (bytes : list Z) : list Z :=
  let ws := words (pad bytes) in
  foldl compress initial_hash (blocks (length ws / 16) ws).

(** The digest as one number below [2 ^ 256]. *)
Definition digest_number (st : list Z) : Z :=
  foldl (fun acc w => acc * 2 ^ 32 + w) 0 st.

Definition hex_digit (d : Z) : ascii :=
  nth (Z.to_nat d) (String.list_ascii_of_string "0123456789abcdef") "0"%char.

Fixpoint to_hex (width : nat) (x : Z) : list ascii :=
  match width with
  | O => []
  | S width' => to_hex width' (x / 16) ++ [hex_digit (x mod 16)]
  end.

(** *** The stable serialization *)

Definition quote : ascii := "034"%char.
Definition backslash : ascii := "092"%char.

Fixpoint escape (l : list ascii) : list ascii :=
  match l with
  | [] => []
  | c :: l' =>
      if decide (c = quote \/ c = backslash)
      then backslash :: c :: escape l'
      else c :: escape l'
  end.

Definition json_string (s : string) : list ascii :=
  quote :: escape (String.list_ascii_of_string s) ++ [quote].

Definition role_name (r : Role) : string :=
  match r with
  | user => "user"
  | agent => "agent"
  | system => "system"
  | tool_response => "tool-response"
  end.

(** One message, keys in sorted order: [{"content":...,"role":...}]. *)
Definition json_message (m : Message) : list ascii :=
  String.list_ascii_of_string "{" ++ json_string "content" ++ String.list_ascii_of_string ":"
    ++ json_string (content m)
    ++ String.list_ascii_of_string "," ++ json_string "role" ++ String.list_ascii_of_string ":"
    ++ json_string (role_name (role m))
    ++ String.list_ascii_of_string "}".

Fixpoint json_more (ms : list Message) : list ascii :=
  match ms with
  | [] => String.list_ascii_of_string "]"
  | m :: ms' => String.list_ascii_of_string "," ++ json_message m ++ json_more ms'
  end.

Definition json_array (ms : list Message) : list ascii :=
  match ms with
  | [] => String.list_ascii_of_string "[]"
  | m :: ms' => String.list_ascii_of_string "[" ++ json_message m ++ json_more ms'
  end.

(** Modelled from the spec: the stable text of the object [{ messages }]. *)
Definition stable_stringify (msgs : list Message) : list ascii :=
  String.list_ascii_of_string "{" ++ json_string "messages" ++ String.list_ascii_of_string ":"
    ++ json_array msgs ++ String.list_ascii_of_string "}".

Definition bytes_of (text : list ascii) : list Z :=
  map (fun c => Z.of_N (N_of_ascii c)) text.

(** The digest of a text, as a number and as 64 hexadecimal digits. *)
Definition sha256_number (text : list ascii) : Z :=
  digest_number (sha256 (bytes_of text)).

Definition sha256_hex (text : list ascii) : string :=
  String.string_of_list_ascii (to_hex 64 (sha256_number text)).

(** Modelled from the spec: the fingerprint of a history, the cache key. *)
Definition fingerprint (history : list Message) : string :=
  sha256_hex (stable_stringify history).

End StableSha256.

#[global] Instance fingerprint_hash : StableHash := StableSha256.fingerprint.

(** Two messages for the examples. *)
Definition U1 : Message := {| role := user; content := "U1" |}.
Definition F1 : Message := {| role := system; content := "F1" |}.

(** A memory whose configuration never names a behavior: [defineMemory], or
    [.config] with an input without the field, then any of the other
    methods. *)
Inductive behavior_omitted : MemoryDefinitionBuilder -> Prop :=
| omitted_defineMemory name :
    behavior_omitted (defineMemory name)
| omitted_config this :
    behavior_omitted (builder_config this {| behavior_in := None |})
| omitted_getOutput this params :
    behavior_omitted this -> behavior_omitted (builder_getOutput this params)
| omitted_onHistoryChange this f :
    behavior_omitted this -> behavior_omitted (builder_onHistoryChange this f)
| omitted_dependencies this deps :
    behavior_omitted this -> behavior_omitted (builder_dependencies this deps).

(** ** Registries and requests used as examples *)

Definition note (text : string) : Message := {| role := system; content := text |}.

Definition R1 : Message := note "R1".

(** A provider with a name, a configured behavior and the outcome of its
    [getOutput] function. *)
Definition provider (name : string) (b : option Behavior) (out : Outcome (list Message))
  : MemoryDefinitionBuilder :=
  builder_getOutput (builder_config (defineMemory name) {| behavior_in := b |})
                    (OutputFunction (fun _ => out)).

(** The registry of the end-to-end example of the specification. *)
Definition facts : MemoryDefinitionBuilder :=
  builder_getOutput (defineMemory "facts") (OutputFunction (fun _ => Resolved [F1])).

Definition recent : MemoryDefinitionBuilder :=
  provider "recent" (Some non_blocking) (Resolved [R1]).

Definition facts_and_recent : Config := {| items := [facts; recent] |}.

(** [A] and [C] blocking, [B] non-blocking between them. *)
Definition a_b_c : Config :=
  {| items := [provider "A" None (Resolved [note "a"]);
               provider "B" (Some non_blocking) (Resolved [note "b'"]);
               provider "C" (Some blocking) (Resolved [note "c"])] |}.

(** A store where the last result of [B] is [b]. *)
Definition b_stored : Context :=
  store_memory_result (MemoryResult "B" [note "b"] 5) initial_context.

(** A blocking provider that throws, before one that answers. *)
Definition failing_then_facts : Config :=
  {| items := [provider "failing" None (Rejected "boom"); facts] |}.

(** The cache after a first round that merged [F1] for the history [U1]. *)
Definition cached_F1 : Context :=
  cache_set (stableObjectSHA256 [U1])
    {| hash := stableObjectSHA256 [U1]; memories := [F1] |} initial_context.

Definition request (id : string) : ResourcesData :=
  {| requestId := id; messages := [U1]; passthrough := [] |}.

Definition some_timing : Runtime.Timing :=
  {| Runtime.nb_now := 10; Runtime.nb_order := [0; 1]%nat; Runtime.nb_early := 0;
     Runtime.b_now := 11; Runtime.b_order := [1; 0]%nat |}.

(** ** Notions for the further properties *)

(** The provider and the timestamp a [memory-result] event speaks for. *)
Definition event_key (e : Event) : option (string * Z) :=
  match e with
  | MemoryResult name _ timestamp => Some (name, timestamp)
  | _ => None
  end.

(** The greatest timestamp among [start] and the results of [name] in [evs]. *)
Definition latest_timestamp (name : string) (evs : list Event) (start : Z) : Z :=
  foldl (fun acc e =>
           match e with
           | MemoryResult name' _ timestamp =>
               if decide (name' = name) then Z.max acc timestamp else acc
           | _ => acc
           end) start evs.

(** The item at [index] when it is a non-blocking one. *)
Definition non_blocking_item (cfg : Config) (index : nat) : option MemoryDefinitionBuilder :=
  item ← items cfg !! index;
  if decide (behavior (config (_definition item)) = non_blocking) then Some item else None.

(** The names of the registered providers. *)
Definition registry_names (cfg : Config) : gset string :=
  list_to_set (map (fun item => name (_definition item)) (items cfg)).

(** What the merge reads for a non-blocking provider. *)
Definition stored_result (lastResults : gmap string (list Message))
    (item : MemoryDefinitionBuilder) : list Message :=
  default [] (lastResults !! name (_definition item)).

(** A provider whose promise never settles. *)
Definition slow_then_facts : Config :=
  {| items := [provider "slow" None Pending; facts] |}.

Definition recent_only : Config := {| items := [recent] |}.

(** What the promise of item [index] of [build-non-blocking-memories] leads
    to: an event through [.then], or a logged failure through [.catch]. *)
Definition nb_emission (cfg : Config) (msgs : list Message) (timestamp : Z) (index : nat)
  : option Event :=
  item ← non_blocking_item cfg index;
  match buildMemory item msgs with
  | Resolved ms => Some (MemoryResult (name (_definition item)) ms timestamp)
  | _ => None
  end.

Definition nb_failure (cfg : Config) (msgs : list Message) (index : nat)
  : option (string * string) :=
  item ← non_blocking_item cfg index;
  match buildMemory item msgs with
  | Rejected err => Some (name (_definition item), err)
  | _ => None
  end.

(** A store that holds, under the name of the blocking provider [A], a result
    newer than the request to come; and the same store when the service
    resumes after the fan-out of that request. *)
Definition a_kept : Context :=
  store_memory_result (MemoryResult "A" [note "kept"] 50) b_stored.

Definition a_kept_at_merge : Context :=
  store_all (fan_emitted (blocking_fan_out a_b_c [U1] 11 [2; 0; 1]%nat)) a_kept.

(** The core event of the request [r1], and the first run of [build-memories]
    on it. *)
Definition core_response_r1 : DependencyEvent :=
  {| dep_type := "agent.resources-response"; dep_data := request "r1" |}.

Definition first_run_r1 : ServiceRun :=
  build_memories facts_and_recent [0; 1]%nat 11 (BuildRequest (request "r1"))
    initial_context initial_context.

(** ** models/llm/providers/anthropic.ts *)

(** What the provider takes from the platform: JSON values with
    [JSON.stringify] and [JSON.parse], which throws a [SyntaxError] (here
    its message) on a text that is not JSON. *)
Class Platform := {
  Json : Type;
  JSON_stringify : Json -> string;
  JSON_parse : string -> string + Json
}.

Module Anthropic.

(** *** Config *)

Definition models : list string :=
  ["claude-3-5-sonnet-20241022"; "claude-3-5-haiku-20241022";
   "claude-3-opus-20240229"; "claude-3-sonnet-20240229";
   "claude-3-haiku-20240307"].

(** [z.input] and [z.output] of [anthropicLLMConfigSchema]; a number that
    the schema can accept is finite, and is given here as a rational. *)
Record ConfigInput := {
  apiKey : option string;
  model : option string;
  temperature : option Q;
  maxTokens : option Q
}.

Record Config := {
  config_apiKey : string;
  config_model : string;
  config_temperature : Q;
  config_maxTokens : Q
}.

Definition in_range (low high x : Q) : bool := Qle_bool low x && Qle_bool x high.

(** [anthropicLLMConfigSchema.parse]; [env_key] is
    [process.env.ANTHROPIC_API_KEY] when the module is loaded. *)
Definition anthropicLLMConfigSchema_parse (env_key : option string)
    (input : ConfigInput) : option Config :=
  let apiKey' := default (default "" env_key) (apiKey input) in
  let model' := default "claude-3-5-sonnet-20241022" (model input) in
  let temperature' := default (1 # 2)%Q (temperature input) in
  let maxTokens' := default (4096 # 1)%Q (maxTokens input) in
  if bool_decide (model' ∈ models)
     && in_range (0 # 1) (1 # 1) temperature'
     && in_range (1 # 1) (8192 # 1) maxTokens'
  then Some {| config_apiKey := apiKey'; config_model := model';
               config_temperature := temperature'; config_maxTokens := maxTokens' |}
  else None.

Inductive Construction :=
| Constructed (client_apiKey : string)
| BaseThrows
| ConstructorThrows (error : string).

(** The constructor of [AnthropicLLM]: [base] tells whether the constructor
    of [LLMBase] returns for this config; the result is the key the client
    is made with. *)
Definition AnthropicLLM_new (base : ConfigInput -> bool) (config : ConfigInput)
  : Construction :=
  if base config then
    match apiKey config with
    | Some key =>
        if decide (key = "") then
          ConstructorThrows
            "ANTHROPIC_API_KEY environment variable or config.apiKey must be provided to use this model."
        else Constructed key
    | None =>
        ConstructorThrows
          "ANTHROPIC_API_KEY environment variable or config.apiKey must be provided to use this model."
    end
  else BaseThrows.

Section Provider.

Context `{Platform}.

(** *** Format conversion *)

Record ToolRequest := {
  request_id : string;
  request_name : string;
  request_input : Json
}.

(** [Message] of [@/agent/resources], with the fields this file reads. *)
Record Message := {
  role : Role;
  content : string;
  toolsRequests : option (list ToolRequest);
  toolId : string;
  toolOutput : Json
}.

(** [MessageParam] of the Anthropic SDK, as far as the provider builds it. *)
Inductive ContentBlockParam :=
| TextBlockParam (text : string)
| ToolUseBlockParam (id name : string) (input : Json)
| ToolResultBlockParam (tool_use_id : string) (result : string).

Inductive ParamContent :=
| ContentString (text : string)
| ContentBlocks (blocks : list ContentBlockParam).

Inductive ParamRole := param_user | param_assistant.

Record MessageParam := { param_role : ParamRole; param_content : ParamContent }.

Definition tool_use_block (request : ToolRequest) : ContentBlockParam :=
  ToolUseBlockParam (request_id request) (request_name request) (request_input request).

(** [#toAnthropicMessage]; the four roles leave the final
    [return null as never] out of reach. *)
Definition toAnthropicMessage (message : Message) : MessageParam :=
  match role message with
  | user =>
      {| param_role := param_user; param_content := ContentString (content message) |}
  | agent =>
      let text :=
        if decide (content message = "") then []
        else [TextBlockParam (content message)] in
      let tools :=
        match toolsRequests message with
        | Some (request :: requests) => map tool_use_block (request :: requests)
        | _ => []
        end in
      {| param_role := param_assistant; param_content := ContentBlocks (text ++ tools) |}
  | system =>
      {| param_role := param_user; param_content := ContentString (content message) |}
  | tool_response =>
      {| param_role := param_user;
         param_content :=
           ContentBlocks
             [ToolResultBlockParam (toolId message)
                (JSON_stringify (toolOutput message))] |}
  end.

Definition is_system (m : Message) : bool := bool_decide (role m = system).

Definition newline : string := String "010"%char EmptyString.

Record AnthropicMessages := {
  system_prompt : option string;
  param_messages : list MessageParam
}.

(** [#toAnthropicMessages]: [join] is [String.concat], and the [system]
    field is there when the joined string is not empty. *)
Definition toAnthropicMessages (messages : list Message) : AnthropicMessages :=
  let systemMessages := List.filter is_system messages in
  let system := String.concat newline (map content systemMessages) in
  let anthropicMessages :=
    map toAnthropicMessage (List.filter (fun m => negb (is_system m)) messages) in
  {| system_prompt := if decide (system = "") then None else Some system;
     param_messages := anthropicMessages |}.

(** *** [generateMessage]: the streaming loop *)

Inductive StartedBlock := StartToolUse (id name : string) | StartOther.

Inductive Delta :=
| TextDelta (text : string)
| InputJsonDelta (partial_json : string)
| OtherDelta.

Inductive StreamEvent :=
| ContentBlockStart (content_block : StartedBlock)
| ContentBlockDelta (delta : Delta)
| ContentBlockStop
| MessageStop
| OtherEvent.

(** [currentToolUse] and the entries of [completedTools]. *)
Record ToolUse := { use_id : string; use_name : string; use_input : string }.

Record CompletedTool := {
  completed_id : string;
  completed_name : string;
  completed_input : Json
}.

(** What [job.raw.receiveChunk] is given. *)
Inductive Chunk :=
| ContentChunk (text : string)
| ToolsChunk (tools : list CompletedTool)
| EndChunk
| ErrorChunk (error : string).

Record StreamState := {
  currentToolUse : option ToolUse;
  completedTools : list CompletedTool
}.

Definition stream_start : StreamState :=
  {| currentToolUse := None; completedTools := [] |}.

(** The [switch] on one event: the chunks given to [receiveChunk] and the
    next state, or the message of the error [JSON.parse] throws. *)
Definition on_event (st : StreamState) (event : StreamEvent)
  : string + (StreamState * list Chunk) :=
  match event with
  | ContentBlockStart (StartToolUse id name) =>
      inr ({| currentToolUse := Some {| use_id := id; use_name := name; use_input := "" |};
              completedTools := completedTools st |}, [])
  | ContentBlockStart StartOther => inr (st, [])
  | ContentBlockDelta (TextDelta text) => inr (st, [ContentChunk text])
  | ContentBlockDelta (InputJsonDelta partial_json) =>
      match currentToolUse st with
      | Some use =>
          inr ({| currentToolUse :=
                    Some {| use_id := use_id use; use_name := use_name use;
                            use_input := use_input use +:+ partial_json |};
                  completedTools := completedTools st |}, [])
      | None => inr (st, [])
      end
  | ContentBlockDelta OtherDelta => inr (st, [])
  | ContentBlockStop =>
      match currentToolUse st with
      | Some use =>
          match JSON_parse (if decide (use_input use = "") then "{}" else use_input use) with
          | inr input =>
              inr ({| currentToolUse := None;
                      completedTools :=
                        completedTools st
                        ++ [{| completed_id := use_id use;
                               completed_name := use_name use;
                               completed_input := input |}] |}, [])
          | inl message => inl message
          end
      | None => inr (st, [])
      end
  | MessageStop =>
      inr (st,
           (if decide (completedTools st = []) then []
            else [ToolsChunk (completedTools st)]) ++ [EndChunk])
  | OtherEvent => inr (st, [])
  end.

(** One turn of [for await (const event of stream)]: the stream yields an
    event, with the state of the abort signal when the body starts, or it
    throws (an [Error] with its message, or something else). *)
Inductive StreamItem :=
| Yield (aborted : bool) (event : StreamEvent)
| Throw (error : option string).

(** The loop with its [try]/[catch]: the chunks received, in order. *)
Fixpoint stream_loop (st : StreamState) (stream : list StreamItem) : list Chunk :=
  match stream with
  | [] => []
  | Throw error :: _ => [ErrorChunk (default "Unknown streaming error" error)]
  | Yield aborted event :: rest =>
      if aborted then []
      else
        match on_event st event with
        | inl message => [ErrorChunk message]
        | inr (st', chunks) => chunks ++ stream_loop st' rest
        end
  end.

(** How the loop is left: the stream is exhausted, the signal is found
    aborted, or an error reaches the [catch]. *)
Inductive Ending := Drained | Cancelled | Caught.

Fixpoint stream_ending (st : StreamState) (stream : list StreamItem) : Ending :=
  match stream with
  | [] => Drained
  | Throw _ :: _ => Caught
  | Yield aborted event :: rest =>
      if aborted then Cancelled
      else
        match on_event st event with
        | inl _ => Caught
        | inr (st', _) => stream_ending st' rest
        end
  end.



Definition is_error (chunk : Chunk) : bool :=
  match chunk with ErrorChunk _ => true | _ => false end.

Definition is_message_stop (item : StreamItem) : bool :=
  match item with Yield _ MessageStop => true | _ => false end.

(** The events of one tool call whose input comes in [fragments]. *)
Definition tool_call (id name : string) (fragments : list string) : list StreamItem :=
  Yield false (ContentBlockStart (StartToolUse id name))
  :: map (fun fragment => Yield false (ContentBlockDelta (InputJsonDelta fragment))) fragments
  ++ [Yield false ContentBlockStop].

(** Each tools chunk holds a tool and has the end chunk next. *)
Fixpoint tools_before_end (chunks : list Chunk) : Prop :=
  match chunks with
  | [] => True
  | ToolsChunk tools :: rest =>
      tools <> [] /\ head rest = Some EndChunk /\ tools_before_end rest
  | _ :: rest => tools_before_end rest
  end.

(** [this.#client.messages.create] resolves with a stream or throws. *)
Inductive Created :=
| CreatedStream (stream : list StreamItem)
| CreateThrows (error : option string).

(** The chunks a job of [generateMessage] receives. *)
Definition generateMessage (created : Created) : list Chunk :=
  match created with
  | CreatedStream stream => stream_loop stream_start stream
  | CreateThrows error =>
      [ErrorChunk (default "Failed to create message stream" error)]
  end.

(** *** [generateObject] *)

Inductive ResponseBlock :=
| ResponseText (text : string)
| ResponseToolUse (id name : string) (input : Json)
| ResponseOther.

Definition is_tool_use (block : ResponseBlock) : bool :=
  match block with ResponseToolUse _ _ _ => true | _ => false end.

(** The call resolves with the content blocks of the response or throws. *)
Inductive Response :=
| ResponseContent (blocks : list ResponseBlock)
| ResponseThrows (error : option string).

Inductive ObjectResult (Data : Type) :=
| Success (data : Data)
| Failure (error : string).
Arguments Success {Data} data.
Arguments Failure {Data} error.

(** What [generateObject] returns; [safeParse] is that of [params.schema],
    with the message of [result.error] on failure. *)
Definition generateObject {Data : Type} (safeParse : Json -> string + Data)
    (response : Response) : ObjectResult Data :=
  match response with
  | ResponseThrows error => Failure (default "Failed to generate object" error)
  | ResponseContent blocks =>
      match List.find is_tool_use blocks with
      | Some (ResponseToolUse _ _ input) =>
          match safeParse input with
          | inr data => Success data
          | inl message => Failure message
          end
      | _ => Failure "No tool use found in response"
      end
  end.

End Provider.

Arguments Success {Data} data.
Arguments Failure {Data} error.

End Anthropic.

(** A platform for the examples: a JSON value is kept as its text, and the
    empty text is not JSON. *)
Definition text_platform : Platform := {|
  Json := string;
  JSON_stringify := fun value => value;
  JSON_parse := fun text =>
    if decide (text = "") then inl "Unexpected end of JSON input" else inr text
|}.

Definition search_tool : @Anthropic.CompletedTool text_platform :=
  {| Anthropic.completed_id := "t1"; Anthropic.completed_name := "search";
     Anthropic.completed_input := "{}" : @Json text_platform |}.

Definition unfinished_stream : list Anthropic.StreamItem :=
  Anthropic.tool_call "t1" "search" ["{}"]
  ++ [Anthropic.Yield false (Anthropic.ContentBlockDelta (Anthropic.TextDelta "hi"))].

Definition no_key : Anthropic.ConfigInput :=
  {| Anthropic.apiKey := None; Anthropic.model := None;
     Anthropic.temperature := None; Anthropic.maxTokens := None |}.

Definition any_base (config : Anthropic.ConfigInput) : bool := true.

Definition as_text (input : @Json text_platform) : string + string := inr input.

(** * Properties *)

(** ** The result store *)

Section ResultStore.

Implicit Types (context c : Context) (name n : string) (msgs ms : list Message)
  (timestamp t : Z) (events evs : list Event).

Lemma store_newer c n ms t :
  (stored_timestamp c n <= t)%Z ->
  store_memory_result (MemoryResult n ms t) c =
    {| memoriesLastResults := <[n := ms]> (memoriesLastResults c);
       memoriesLastTimestamp := <[n := t]> (memoriesLastTimestamp c);
       processedRequestsIds := processedRequestsIds c;
       computedMemoriesCache := computedMemoriesCache c |}.
Proof.
  intros Hle. unfold store_memory_result, stored_timestamp in *.
  destruct (Z.geb_spec t (default 0%Z (memoriesLastTimestamp c !! n))); [done | lia].
Qed.

Lemma store_older c n ms t :
  (t < stored_timestamp c n)%Z ->
  store_memory_result (MemoryResult n ms t) c = c.
Proof.
  intros Hlt. unfold store_memory_result, stored_timestamp in *.
  destruct (Z.geb_spec t (default 0%Z (memoriesLastTimestamp c !! n))); [lia | done].
Qed.

Lemma stored_timestamp_after_store c n ms t :
  (stored_timestamp c n <= t)%Z ->
  stored_timestamp (store_memory_result (MemoryResult n ms t) c) n = t.
Proof.
  intros Hle. rewrite store_newer by done.
  unfold stored_timestamp. simpl. by rewrite lookup_insert_eq.
Qed.

(** The effect never touches the build cache nor the processed ids. *)
Lemma store_memory_result_frame e c :
  computedMemoriesCache (store_memory_result e c) = computedMemoriesCache c /\
  processedRequestsIds (store_memory_result e c) = processedRequestsIds c.
Proof.
  destruct e as [d | d | n ms t]; simpl; try done.
  by destruct (t >=? _)%Z.
Qed.

Lemma store_all_frame evs c :
  computedMemoriesCache (store_all evs c) = computedMemoriesCache c /\
  processedRequestsIds (store_all evs c) = processedRequestsIds c.
Proof.
  revert c. induction evs as [| e evs IH]; intros c; [done |].
  unfold store_all in *. simpl.
  destruct (IH (store_memory_result e c)) as [-> ->].
  apply store_memory_result_frame.
Qed.

Lemma store_all_app evs1 evs2 c :
  store_all (evs1 ++ evs2) c = store_all evs2 (store_all evs1 c).
Proof. unfold store_all. apply foldl_app. Qed.

(** C6. [store-memory-result] overwrites the entry of a provider exactly
    when the incoming timestamp is greater than or equal to the stored one
    (0 when there is none), ties included, and otherwise leaves the context
    as it is. Hence two results for one provider with timestamps [t1 < t2]
    commute, and when nothing newer than [t2] is stored they leave the
    [t2] payload and [t2] in the store whichever comes first. *)
Theorem store_memory_result_last_write_wins c n ms1 ms2 t1 t2 :
  (t1 < t2)%Z ->
  let e1 := MemoryResult n ms1 t1 in
  let e2 := MemoryResult n ms2 t2 in
  (forall ms t,
      store_memory_result (MemoryResult n ms t) c =
        if decide (stored_timestamp c n <= t)%Z
        then {| memoriesLastResults := <[n := ms]> (memoriesLastResults c);
                memoriesLastTimestamp := <[n := t]> (memoriesLastTimestamp c);
                processedRequestsIds := processedRequestsIds c;
                computedMemoriesCache := computedMemoriesCache c |}
        else c) /\
  store_memory_result e2 (store_memory_result e1 c) =
    store_memory_result e1 (store_memory_result e2 c) /\
  ((stored_timestamp c n <= t2)%Z ->
     let c' := store_memory_result e2 (store_memory_result e1 c) in
     memoriesLastResults c' !! n = Some ms2 /\
     memoriesLastTimestamp c' !! n = Some t2 /\
     store_memory_result e1 c' = c').
Proof.
  intros Hlt e1 e2. split; [| split].
  - intros ms t. case_decide.
    + by apply store_newer.
    + apply store_older. lia.
  - subst e1 e2.
    destruct (decide (stored_timestamp c n <= t1)%Z) as [H1 | H1].
    + rewrite (store_newer c n ms1 t1) by done.
      rewrite (store_newer c n ms2 t2) by lia.
      rewrite store_newer
        by (unfold stored_timestamp; simpl; rewrite lookup_insert_eq; simpl; lia).
      rewrite store_older
        by (unfold stored_timestamp; simpl; rewrite lookup_insert_eq; simpl; lia).
      simpl. by rewrite !insert_insert_eq.
    + rewrite (store_older c n ms1 t1) by lia.
      destruct (decide (stored_timestamp c n <= t2)%Z) as [H2 | H2].
      * rewrite (store_newer c n ms2 t2) by done.
        rewrite store_older
          by (unfold stored_timestamp; simpl; rewrite lookup_insert_eq; simpl; lia).
        done.
      * rewrite (store_older c n ms2 t2) by lia.
        by rewrite store_older by lia.
  - intros H2 c'. subst c' e1 e2.
    assert (Hts : (stored_timestamp (store_memory_result (MemoryResult n ms1 t1) c) n <= t2)%Z).
    { destruct (decide (stored_timestamp c n <= t1)%Z) as [H1 | H1].
      - rewrite stored_timestamp_after_store by done. lia.
      - rewrite store_older by lia. done. }
    remember (store_memory_result (MemoryResult n ms1 t1) c) as c1 eqn:Hc1.
    split; [| split].
    + rewrite store_newer by done. simpl. apply lookup_insert_eq.
    + rewrite store_newer by done. simpl. apply lookup_insert_eq.
    + apply store_older. rewrite stored_timestamp_after_store by done. lia.
Qed.

Lemma store_memory_result_last_write_wins_witness :
  (7 < 9)%Z /\
  memoriesLastResults
    (store_memory_result (MemoryResult "X" [{| role := system; content := "a" |}] 7)
       (store_memory_result (MemoryResult "X" [{| role := system; content := "b" |}] 9)
          (store_memory_result
             (MemoryResult "X" [{| role := system; content := "old" |}] 5)
             initial_context))) !! "X"
    = Some [{| role := system; content := "b" |}].
Proof.
  split; [lia |].
  destruct (store_memory_result_last_write_wins
              (store_memory_result
                 (MemoryResult "X" [{| role := system; content := "old" |}] 5)
                 initial_context)
              "X"
              [{| role := system; content := "a" |}]
              [{| role := system; content := "b" |}] 7 9 ltac:(lia))
    as (_ & Hcomm & Hlast).
  rewrite <- Hcomm.
  apply Hlast. vm_compute. discriminate.
Defined.

End ResultStore.

(** ** The two maps of the result store *)

Section Consistency.

Lemma consistent_step evs e c :
  (forall n, consistent_at evs c n) ->
  forall n, consistent_at (evs ++ [e]) (store_memory_result e c) n.
Proof.
  intros Hc n. specialize (Hc n) as Hn. unfold consistent_at in *.
  destruct e as [d | d | n' ms' t']; simpl.
  1, 2: destruct (memoriesLastResults c !! n), (memoriesLastTimestamp c !! n);
        try done; set_solver.
  destruct (t' >=? _)%Z; simpl.
  - destruct (decide (n' = n)) as [-> | Hne].
    + rewrite !lookup_insert_eq. set_solver.
    + rewrite !lookup_insert_ne by done.
      destruct (memoriesLastResults c !! n), (memoriesLastTimestamp c !! n);
        try done; set_solver.
  - destruct (memoriesLastResults c !! n), (memoriesLastTimestamp c !! n);
      try done; set_solver.
Qed.

Lemma consistent_store_all evs : forall pre c,
  (forall n, consistent_at pre c n) ->
  forall n, consistent_at (pre ++ evs) (store_all evs c) n.
Proof.
  induction evs as [| e evs IH]; intros pre c Hc n.
  - rewrite app_nil_r. apply Hc.
  - replace (pre ++ e :: evs) with ((pre ++ [e]) ++ evs) by by rewrite <- app_assoc.
    unfold store_all. simpl. apply IH. by apply consistent_step.
Qed.

(** C10. After any sequence of events run through [store-memory-result]
    from the empty context, [memoriesLastResults] and
    [memoriesLastTimestamp] have the same keys, and what is stored under a
    name is the payload and the timestamp of one [memory-result] event of
    the sequence. The other two writers of the context, the cache write of
    [build-memories] and [re-emit-build-response], leave both maps as they
    found them. *)
Theorem result_store_maps_consistent `{StableHash} (evs : list Event) :
  dom (memoriesLastResults (store_all evs initial_context))
    = dom (memoriesLastTimestamp (store_all evs initial_context)) /\
  (forall n ms t,
      memoriesLastResults (store_all evs initial_context) !! n = Some ms ->
      memoriesLastTimestamp (store_all evs initial_context) !! n = Some t ->
      MemoryResult n ms t ∈ evs) /\
  (forall e c,
      memoriesLastResults (re_emit_build_response e c).1 = memoriesLastResults c /\
      memoriesLastTimestamp (re_emit_build_response e c).1 = memoriesLastTimestamp c) /\
  (forall cfg sched ts e c,
      memoriesLastResults (run_context (build_memories cfg sched ts e c c))
        = memoriesLastResults c /\
      memoriesLastTimestamp (run_context (build_memories cfg sched ts e c c))
        = memoriesLastTimestamp c).
Proof.
  assert (Hall : forall n, consistent_at evs (store_all evs initial_context) n).
  { intros n. apply (consistent_store_all evs [] initial_context).
    intros n'. unfold consistent_at. simpl. by rewrite !lookup_empty. }
  split; [| split; [| split]].
  - apply set_eq. intros n. rewrite !elem_of_dom.
    specialize (Hall n). unfold consistent_at in Hall.
    destruct (memoriesLastResults _ !! n), (memoriesLastTimestamp _ !! n);
      try done; split; intros [? ?]; by eauto.
  - intros n ms t Hms Ht. specialize (Hall n). unfold consistent_at in Hall.
    by rewrite Hms, Ht in Hall.
  - intros e c. destruct e; done.
  - intros cfg sched ts e c. unfold build_memories.
    destruct e as [d | d | n ms t]; try done.
    destruct (computedMemoriesCache c !! _); [done |].
    destruct (fan_rejected _); [done |].
    destruct (fan_pending _); done.
Qed.

End Consistency.

(** ** The blocking fan-out *)

Section FanOut.

Variables (cfg : Config) (msgs : list Message) (timestamp : Z).

Implicit Types (acc : FanOut) (sched : list nat) (i j : nat)
  (item : MemoryDefinitionBuilder).

Local Abbreviation step := (settle cfg msgs timestamp).

Lemma blocking_item_Some i item :
  blocking_item cfg i = Some item <->
  items cfg !! i = Some item /\ behavior (config (_definition item)) = blocking.
Proof.
  unfold blocking_item. destruct (items cfg !! i) as [it |]; simpl.
  - case_decide as Hb.
    + split; [by intros [= ->] | by intros [[= ->] _]].
    + split; [done | intros [[= ->] Hb']; done].
  - split; [done | by intros [? _]].
Qed.

Lemma settle_not_blocking acc i :
  blocking_item cfg i = None -> step acc i = acc.
Proof.
  unfold blocking_item, settle. destruct (items cfg !! i) as [it |]; simpl; [| done].
  case_decide as Hb; [done |]. by destruct (behavior _).
Qed.

Lemma settle_blocking acc i item :
  blocking_item cfg i = Some item ->
  step acc i =
    match buildMemory item msgs with
    | Resolved ms =>
        {| blockingResults := <[i := ms]> (blockingResults acc);
           fan_emitted :=
             fan_emitted acc ++ [MemoryResult (name (_definition item)) ms timestamp];
           fan_rejected := fan_rejected acc;
           fan_pending := fan_pending acc |}
    | Rejected err =>
        {| blockingResults := blockingResults acc;
           fan_emitted := fan_emitted acc;
           fan_rejected := Some (default err (fan_rejected acc));
           fan_pending := fan_pending acc |}
    | Pending =>
        {| blockingResults := blockingResults acc;
           fan_emitted := fan_emitted acc;
           fan_rejected := fan_rejected acc;
           fan_pending := true |}
    end.
Proof.
  intros [Hi Hb]%blocking_item_Some. unfold settle. by rewrite Hi, Hb.
Qed.

(** The events of the fan-out, whatever the order: one [memory-result] per
    index of the order at which a blocking provider resolved. *)
Lemma fan_emitted_foldl sched : forall acc,
  fan_emitted (foldl step acc sched) = fan_emitted acc ++ omap (emission cfg msgs timestamp) sched.
Proof.
  induction sched as [| i sched IH]; intros acc; simpl.
  - by rewrite app_nil_r.
  - rewrite IH. unfold emission at 2.
    destruct (blocking_item cfg i) as [item |] eqn:Hi; simpl.
    + rewrite (settle_blocking _ _ _ Hi).
      destruct (buildMemory item msgs); simpl; [| done | done].
      by rewrite <- app_assoc.
    + by rewrite settle_not_blocking.
Qed.

Lemma fan_rejected_foldl sched : forall acc,
  fan_rejected (foldl step acc sched) = None <->
  fan_rejected acc = None /\
  forall i item err, i ∈ sched -> blocking_item cfg i = Some item ->
                     buildMemory item msgs <> Rejected err.
Proof.
  induction sched as [| i sched IH]; intros acc; simpl.
  - split; [| tauto]. intros ?. split; [done |]. intros ??? Hin. by apply elem_of_nil in Hin.
  - rewrite IH. clear IH.
    destruct (blocking_item cfg i) as [item |] eqn:Hi.
    + rewrite (settle_blocking _ _ _ Hi).
      destruct (buildMemory item msgs) as [ms | err |] eqn:Hb; simpl.
      * split; intros [Hr Hall]; (split; [done |]).
        -- intros j it e [-> | Hin]%elem_of_cons Hj; [| by eapply Hall].
           rewrite Hi in Hj. injection Hj as <-. by rewrite Hb.
        -- intros j it e Hin. apply Hall. by right.
      * split; intros [Hr Hall]; [done |].
        exfalso. eapply (Hall i item err); [by left | done | done].
      * split; intros [Hr Hall]; (split; [done |]).
        -- intros j it e [-> | Hin]%elem_of_cons Hj; [| by eapply Hall].
           rewrite Hi in Hj. injection Hj as <-. by rewrite Hb.
        -- intros j it e Hin. apply Hall. by right.
    + rewrite settle_not_blocking by done.
      split; intros [Hr Hall]; (split; [done |]).
      * intros j it e [-> | Hin]%elem_of_cons Hj; [congruence | by eapply Hall].
      * intros j it e Hin. apply Hall. by right.
Qed.

Lemma fan_pending_foldl sched : forall acc,
  fan_pending (foldl step acc sched) = false <->
  fan_pending acc = false /\
  forall i item, i ∈ sched -> blocking_item cfg i = Some item ->
                 buildMemory item msgs <> Pending.
Proof.
  induction sched as [| i sched IH]; intros acc; simpl.
  - split; [| tauto]. intros ?. split; [done |]. intros ?? Hin. by apply elem_of_nil in Hin.
  - rewrite IH. clear IH.
    destruct (blocking_item cfg i) as [item |] eqn:Hi.
    + rewrite (settle_blocking _ _ _ Hi).
      destruct (buildMemory item msgs) as [ms | err |] eqn:Hb; simpl.
      * split; intros [Hr Hall]; (split; [done |]).
        -- intros j it [-> | Hin]%elem_of_cons Hj; [| by eapply Hall].
           rewrite Hi in Hj. injection Hj as <-. by rewrite Hb.
        -- intros j it Hin. apply Hall. by right.
      * split; intros [Hr Hall]; (split; [done |]).
        -- intros j it [-> | Hin]%elem_of_cons Hj; [| by eapply Hall].
           rewrite Hi in Hj. injection Hj as <-. by rewrite Hb.
        -- intros j it Hin. apply Hall. by right.
      * split; intros [Hr Hall]; [done |].
        exfalso. eapply (Hall i item); [by left | done | done].
    + rewrite settle_not_blocking by done.
      split; intros [Hr Hall]; (split; [done |]).
      * intros j it [-> | Hin]%elem_of_cons Hj; [congruence | by eapply Hall].
      * intros j it Hin. apply Hall. by right.
Qed.

(** A result, once in [blockingResults], stays: a later [set] at the same
    index writes the same array. *)
Lemma blockingResults_keep sched : forall acc i item ms,
  blocking_item cfg i = Some item -> buildMemory item msgs = Resolved ms ->
  blockingResults acc !! i = Some ms ->
  blockingResults (foldl step acc sched) !! i = Some ms.
Proof.
  induction sched as [| k sched IH]; intros acc i item ms Hi Hb Hacc; simpl; [done |].
  apply (IH _ i item ms Hi Hb).
  destruct (blocking_item cfg k) as [it |] eqn:Hk.
  - rewrite (settle_blocking _ _ _ Hk).
    destruct (buildMemory it msgs) as [ms' | err |] eqn:Hb'; simpl; try done.
    destruct (decide (k = i)) as [-> | Hne].
    + rewrite Hi in Hk. injection Hk as <-. rewrite Hb in Hb'. injection Hb' as <-.
      apply lookup_insert_eq.
    + by rewrite lookup_insert_ne.
  - by rewrite settle_not_blocking.
Qed.

Lemma blockingResults_foldl sched : forall acc i item ms,
  i ∈ sched ->
  blocking_item cfg i = Some item -> buildMemory item msgs = Resolved ms ->
  blockingResults (foldl step acc sched) !! i = Some ms.
Proof.
  induction sched as [| k sched IH]; intros acc i item ms Hin Hi Hb; simpl.
  - by apply elem_of_nil in Hin.
  - apply elem_of_cons in Hin as [<- | Hin].
    + apply (blockingResults_keep _ _ i item ms Hi Hb).
      rewrite (settle_blocking _ _ _ Hi), Hb. simpl. apply lookup_insert_eq.
    + by apply (IH _ i item ms).
Qed.

End FanOut.

(** ** The merge *)

Section Merge.

Context `{StableHash}.

Implicit Types (cfg : Config) (sched : list nat) (data : ResourcesData)
  (context atMerge : Context) (item : MemoryDefinitionBuilder).

(** The loop of lines 140-152 run over the indices of a suffix of the
    registry pushes the segments of that suffix, in order. *)
Lemma merge_loop_suffix msgs results lastResults (suffix : list MemoryDefinitionBuilder) :
  forall (prefix : list MemoryDefinitionBuilder) (acc : list Message),
  (forall i item, blocking_item {| items := prefix ++ suffix |} i = Some item ->
                  default [] (results !! i) = fresh_output item msgs) ->
  foldl (merge_step {| items := prefix ++ suffix |} results lastResults) acc
        (seq (length prefix) (length suffix))
  = acc ++ concat (map (segment msgs lastResults) suffix).
Proof.
  induction suffix as [| item suffix IH]; intros prefix acc Hres; simpl.
  - by rewrite app_nil_r.
  - specialize (IH (prefix ++ [item])).
    rewrite <- app_assoc in IH. simpl in IH.
    rewrite length_app in IH. simpl in IH.
    replace (length prefix + 1)%nat with (S (length prefix)) in IH by lia.
    rewrite IH by done. clear IH.
    rewrite app_assoc. f_equal.
    assert (Hi : (prefix ++ item :: suffix) !! length prefix = Some item).
    { by apply list_lookup_middle. }
    unfold merge_step, segment. simpl. rewrite Hi.
    destruct (behavior (config (_definition item))) eqn:Hb; [| done].
    f_equal. apply Hres. apply blocking_item_Some. done.
Qed.

Lemma merge_loop_registry_order cfg msgs results lastResults :
  (forall i item, blocking_item cfg i = Some item ->
                  default [] (results !! i) = fresh_output item msgs) ->
  merge_loop cfg results lastResults = merged_in_registry_order cfg msgs lastResults.
Proof.
  intros Hres. destruct cfg as [its]. unfold merge_loop, merged_in_registry_order.
  by apply (merge_loop_suffix msgs results lastResults its [] []).
Qed.

(** The fan-out joined: every blocking provider resolved, and
    [blockingResults] holds its output under its index. *)
Lemma joined_results cfg msgs timestamp sched :
  sched ≡ₚ seq 0 (length (items cfg)) ->
  fan_rejected (blocking_fan_out cfg msgs timestamp sched) = None ->
  fan_pending (blocking_fan_out cfg msgs timestamp sched) = false ->
  forall i item, blocking_item cfg i = Some item ->
    default [] (blockingResults (blocking_fan_out cfg msgs timestamp sched) !! i)
    = fresh_output item msgs.
Proof.
  intros Hperm Hrej Hpend i item Hi.
  assert (Hin : i ∈ sched).
  { rewrite Hperm. apply elem_of_seq. apply blocking_item_Some in Hi as [Hi _].
    apply lookup_lt_Some in Hi. lia. }
  apply fan_rejected_foldl in Hrej as [_ Hrej].
  apply fan_pending_foldl in Hpend as [_ Hpend].
  unfold fresh_output.
  destruct (buildMemory item msgs) as [ms | err |] eqn:Hb.
  - unfold blocking_fan_out.
    by rewrite (blockingResults_foldl cfg msgs timestamp sched fan_start i item ms).
  - exfalso. by eapply (Hrej i item err).
  - exfalso. by eapply (Hpend i item).
Qed.

Lemma all_resolved_joins cfg msgs timestamp sched :
  (forall i item, blocking_item cfg i = Some item ->
                  exists ms, buildMemory item msgs = Resolved ms) ->
  fan_rejected (blocking_fan_out cfg msgs timestamp sched) = None /\
  fan_pending (blocking_fan_out cfg msgs timestamp sched) = false.
Proof.
  intros Hall. split.
  - apply fan_rejected_foldl. split; [done |].
    intros i item err _ Hi Hb. destruct (Hall i item Hi) as [ms Hms]. congruence.
  - apply fan_pending_foldl. split; [done |].
    intros i item _ Hi Hb. destruct (Hall i item Hi) as [ms Hms]. congruence.
Qed.

Lemma fan_emitted_only_results cfg msgs timestamp sched e :
  e ∈ fan_emitted (blocking_fan_out cfg msgs timestamp sched) ->
  exists n ms, e = MemoryResult n ms timestamp.
Proof.
  unfold blocking_fan_out. rewrite fan_emitted_foldl. simpl.
  intros (i & _ & Hi)%list_elem_of_omap. unfold emission in Hi.
  destruct (blocking_item cfg i) as [item |]; simpl in Hi; [| done].
  destruct (buildMemory item msgs); simplify_eq. eauto.
Qed.

(** C1. On a build-request whose hash is not in the cache, whatever the
    order [sched] in which the blocking callbacks settle: a build-response
    the service emits carries the concatenation, in registry order, of the
    fresh output of each blocking provider and of the stored result of each
    non-blocking one ([[]] without an entry), the store being read when the
    service resumes; and when every blocking provider resolves the service
    emits that response, after its [memory-result] events. *)
Theorem merged_output_in_registry_order cfg sched timestamp data context atMerge :
  computedMemoriesCache context !! stableObjectSHA256 (messages data) = None ->
  sched ≡ₚ seq 0 (length (items cfg)) ->
  let run := build_memories cfg sched timestamp (BuildRequest data) context atMerge in
  let merged :=
    merged_in_registry_order cfg (messages data) (memoriesLastResults atMerge) in
  (forall d, BuildResponse d ∈ run_emitted run -> d = with_messages data merged) /\
  ((forall i item, blocking_item cfg i = Some item ->
                   exists ms, buildMemory item (messages data) = Resolved ms) ->
   run_completion run = Responded /\
   run_emitted run =
     fan_emitted (blocking_fan_out cfg (messages data) timestamp sched)
     ++ [BuildResponse (with_messages data merged)]).
Proof.
  intros Hmiss Hperm run merged. subst run merged.
  unfold build_memories. rewrite Hmiss. split.
  - intros d Hd.
    destruct (fan_rejected _) eqn:Hrej.
    { simpl in Hd. apply fan_emitted_only_results in Hd as (? & ? & ?). done. }
    destruct (fan_pending _) eqn:Hpend.
    { simpl in Hd. apply fan_emitted_only_results in Hd as (? & ? & ?). done. }
    simpl in Hd. apply elem_of_app in Hd as [Hd | Hd].
    { apply fan_emitted_only_results in Hd as (? & ? & ?). done. }
    apply list_elem_of_singleton in Hd. injection Hd as ->.
    f_equal. apply merge_loop_registry_order.
    by apply joined_results.
  - intros Hall.
    destruct (all_resolved_joins cfg (messages data) timestamp sched Hall) as [Hrej Hpend].
    rewrite Hrej, Hpend. simpl. split; [done |].
    rewrite (merge_loop_registry_order cfg (messages data)); [done |].
    by apply joined_results.
Qed.

End Merge.

(** ** The service [build-memories] *)

Section BuildMemories.

Context `{StableHash}.

Implicit Types (cfg : Config) (sched order : list nat) (data : ResourcesData)
  (context atMerge : Context) (item : MemoryDefinitionBuilder).

Lemma filter_keeps_all {A} (f : A -> bool) (l : list A) :
  (forall x, x ∈ l -> f x = true) -> List.filter f l = l.
Proof.
  induction l as [| x l IH]; intros Hall; simpl; [done |].
  rewrite (Hall x) by by left. f_equal. apply IH. intros y Hy. apply Hall. by right.
Qed.

Lemma filter_drops_all {A} (f : A -> bool) (l : list A) :
  (forall x, x ∈ l -> f x = false) -> List.filter f l = [].
Proof.
  induction l as [| x l IH]; intros Hall; simpl; [done |].
  rewrite (Hall x) by by left. apply IH. intros y Hy. apply Hall. by right.
Qed.

(** C8. Every [memory-result] event a run of [build-memories] emits carries
    the timestamp read once before the fan-out, whatever the order in which
    the blocking callbacks settle; on a cache miss these events are, in
    that order, one per blocking provider that resolved. *)
Theorem blocking_results_share_one_timestamp cfg sched timestamp event context atMerge :
  Forall (fun e => match e with
                   | MemoryResult _ _ t => t = timestamp
                   | _ => True
                   end)
         (run_emitted (build_memories cfg sched timestamp event context atMerge)) /\
  forall data,
    event = BuildRequest data ->
    computedMemoriesCache context !! stableObjectSHA256 (messages data) = None ->
    List.filter is_memory_result
      (run_emitted (build_memories cfg sched timestamp event context atMerge))
    = omap (emission cfg (messages data) timestamp) sched.
Proof.
  assert (Hfan : forall msgs,
    Forall (fun e => match e with MemoryResult _ _ t => t = timestamp | _ => True end)
           (fan_emitted (blocking_fan_out cfg msgs timestamp sched))).
  { intros msgs. apply Forall_forall. intros e He.
    apply fan_emitted_only_results in He as (n & ms & ->). done. }
  assert (Hall : forall msgs,
    List.filter is_memory_result (fan_emitted (blocking_fan_out cfg msgs timestamp sched))
    = fan_emitted (blocking_fan_out cfg msgs timestamp sched)).
  { intros msgs. apply filter_keeps_all. intros e He.
    apply fan_emitted_only_results in He as (n & ms & ->). done. }
  assert (Hem : forall msgs,
    fan_emitted (blocking_fan_out cfg msgs timestamp sched)
    = omap (emission cfg msgs timestamp) sched).
  { intros msgs. unfold blocking_fan_out. by rewrite fan_emitted_foldl. }
  split.
  - unfold build_memories. destruct event as [data | data | n ms t]; simpl; try done.
    destruct (computedMemoriesCache context !! _); simpl.
    { by repeat constructor. }
    destruct (fan_rejected _); simpl; [done |].
    destruct (fan_pending _); simpl; [done |].
    apply Forall_app. split; [done | by repeat constructor].
  - intros data -> Hmiss. unfold build_memories. rewrite Hmiss.
    destruct (fan_rejected _); simpl; [by rewrite Hall |].
    destruct (fan_pending _); simpl; [by rewrite Hall |].
    rewrite List.filter_app, Hall, Hem. simpl. by rewrite app_nil_r.
Qed.

(** A blocking provider that throws: [Promise.all] rejects, the loop body
    throws, and no build-response is emitted. *)
Lemma blocking_rejection_no_response cfg sched timestamp data context atMerge i item err :
  computedMemoriesCache context !! stableObjectSHA256 (messages data) = None ->
  i ∈ sched ->
  blocking_item cfg i = Some item ->
  buildMemory item (messages data) = Rejected err ->
  let run := build_memories cfg sched timestamp (BuildRequest data) context atMerge in
  (exists err', run_completion run = Threw err') /\
  List.filter is_build_response (run_emitted run) = [] /\
  computedMemoriesCache (run_context run) = computedMemoriesCache atMerge.
Proof.
  intros Hmiss Hin Hi Hb run. subst run. unfold build_memories. rewrite Hmiss.
  destruct (fan_rejected _) as [err' |] eqn:Hrej.
  - simpl. split; [by eauto |]. split; [| done].
    apply filter_drops_all. intros e He.
    apply fan_emitted_only_results in He as (n & ms & ->). done.
  - exfalso. apply fan_rejected_foldl in Hrej as [_ Hrej].
    by apply (Hrej i item err).
Qed.

Lemma invoked_from_behavior b (l : list MemoryDefinitionBuilder) : forall k i,
  i ∈ invoked_from k b l ->
  exists item, l !! (i - k)%nat = Some item /\ (k <= i)%nat /\
               behavior (config (_definition item)) = b.
Proof.
  induction l as [| it l IH]; intros k i Hin; simpl in Hin.
  - by apply elem_of_nil in Hin.
  - assert (Hrest : i ∈ invoked_from (S k) b l ->
                    exists item, (it :: l) !! (i - k)%nat = Some item /\ (k <= i)%nat /\
                                 behavior (config (_definition item)) = b).
    { intros Hr. destruct (IH _ _ Hr) as (item & Hl & Hle & Hb).
      exists item. split; [| split; [lia | done]].
      replace (i - k)%nat with (S (i - S k)) by lia. done. }
    destruct (getOutput (_definition it)) as [[ms | f] |]; try by apply Hrest.
    case_decide as Hb; [| by apply Hrest].
    apply elem_of_cons in Hin as [-> | Hin]; [| by apply Hrest].
    exists it. rewrite Nat.sub_diag. done.
Qed.

Lemma invoked_non_blocking cfg i :
  i ∈ invoked non_blocking cfg -> blocking_item cfg i = None.
Proof.
  intros (item & Hl & _ & Hb)%invoked_from_behavior.
  rewrite Nat.sub_0_r in Hl. unfold blocking_item. rewrite Hl. simpl.
  case_decide; [congruence | done].
Qed.

Lemma nb_invoked_foldl cfg msgs timestamp order : forall acc,
  nb_invoked (foldl (nb_settle cfg msgs timestamp) acc order) = nb_invoked acc.
Proof.
  induction order as [| i order IH]; intros acc; simpl; [done |].
  rewrite IH. unfold nb_settle.
  destruct (items cfg !! i) as [item |]; [| done].
  destruct (behavior _); [done |].
  by destruct (buildMemory item msgs).
Qed.

(** C4, as amended. On a build-request whose hash is in the cache,
    [build-memories] emits one build-response with the cached merged
    messages and nothing else, calls no [getOutput] at all and leaves the
    context alone, so no blocking provider is called for that request.
    The non-blocking providers are called for it all the same by
    [build-non-blocking-memories], which does not look at the cache. *)
Theorem cache_hit_skips_blocking_providers
    cfg sched timestamp order nbTimestamp data context atMerge cachedResult :
  computedMemoriesCache context !! stableObjectSHA256 (messages data) = Some cachedResult ->
  let run := build_memories cfg sched timestamp (BuildRequest data) context atMerge in
  let nb := build_non_blocking_memories cfg order nbTimestamp (BuildRequest data) in
  run_emitted run = [BuildResponse (with_messages data (memories cachedResult))] /\
  run_invoked run = [] /\
  run_completion run = Responded /\
  run_context run = context /\
  nb_invoked nb = invoked non_blocking cfg /\
  forall i, i ∈ nb_invoked nb ++ run_invoked run -> blocking_item cfg i = None.
Proof.
  intros Hhit run nb. subst run nb. unfold build_memories. rewrite Hhit. simpl.
  repeat split; try done.
  - by rewrite nb_invoked_foldl.
  - intros i. rewrite app_nil_r, nb_invoked_foldl. simpl.
    apply invoked_non_blocking.
Qed.

(** C5. Once [build-memories] has written the cache entry of a
    fingerprint, no sequence of events run through [store-memory-result]
    changes the cache, and a later build-request with the same fingerprint
    is answered with the merged messages of the first round, which were
    read from the store as it was then. *)
Theorem cache_entry_survives_store_updates
    cfg sched timestamp sched' timestamp' data data' context atMerge atMerge' evs :
  computedMemoriesCache context !! stableObjectSHA256 (messages data) = None ->
  run_completion (build_memories cfg sched timestamp (BuildRequest data) context atMerge)
    = Responded ->
  stableObjectSHA256 (messages data') = stableObjectSHA256 (messages data) ->
  let run := build_memories cfg sched timestamp (BuildRequest data) context atMerge in
  let merged :=
    merge_loop cfg
      (blockingResults (blocking_fan_out cfg (messages data) timestamp sched))
      (memoriesLastResults atMerge) in
  let later := store_all evs (run_context run) in
  run_emitted run =
    fan_emitted (blocking_fan_out cfg (messages data) timestamp sched)
    ++ [BuildResponse (with_messages data merged)] /\
  computedMemoriesCache later = computedMemoriesCache (run_context run) /\
  run_emitted (build_memories cfg sched' timestamp' (BuildRequest data') later atMerge')
    = [BuildResponse (with_messages data' merged)].
Proof.
  intros Hmiss Hresp Hfp run merged later.
  assert (Hrun : run_context run =
                   cache_set (stableObjectSHA256 (messages data))
                     {| hash := stableObjectSHA256 (messages data); memories := merged |}
                     atMerge /\
                 run_emitted run =
                   fan_emitted (blocking_fan_out cfg (messages data) timestamp sched)
                   ++ [BuildResponse (with_messages data merged)]).
  { subst run merged. revert Hresp. unfold build_memories. rewrite Hmiss.
    destruct (fan_rejected _); [done |].
    destruct (fan_pending _); done. }
  destruct Hrun as [Hctx Hem].
  destruct (store_all_frame evs (run_context run)) as [Hcache _].
  fold later in Hcache.
  split; [done |]. split; [done |].
  unfold build_memories. rewrite Hcache, Hctx, Hfp. simpl.
  by rewrite lookup_insert_eq.
Qed.

End BuildMemories.

(** ** Request intake and the forwarder *)

Section Intake.

Context `{StableHash}.
Import Runtime.

Implicit Types (cfg : Config) (tm : Timing) (data : ResourcesData) (w : World)
  (context : Context).

Lemma intercept_processed context dependencyName event :
  requestId (dep_data event) ∈ processedRequestsIds context ->
  intercept_core_resources_response context dependencyName event = untouched.
Proof.
  intros Hin. unfold intercept_core_resources_response.
  destruct (_ || _); [done |]. by rewrite bool_decide_eq_true_2.
Qed.

Lemma intercept_fresh context data :
  requestId data ∉ processedRequestsIds context ->
  intercept_core_resources_response context "core"
    {| dep_type := "agent.resources-response"; dep_data := data |}
  = {| dropped := Some "Will be re-emitted by memories later.";
       intercepted := [BuildRequest data] |}.
Proof.
  intros Hnin. unfold intercept_core_resources_response. simpl.
  by rewrite bool_decide_eq_false_2.
Qed.

(** An event with a processed identifier passes the interceptor. *)
Lemma core_dispatch_processed fuel cfg tm data w :
  requestId data ∈ processedRequestsIds (world_context w) ->
  core_dispatch (S fuel) cfg tm data w =
    Some {| world_context := world_context w; trace := trace w;
            core_emitted := core_emitted w; passed := passed w ++ [data];
            calls := calls w |}.
Proof.
  intros Hin. simpl. by rewrite intercept_processed.
Qed.

Lemma core_dispatch_fresh fuel cfg tm data w :
  requestId data ∉ processedRequestsIds (world_context w) ->
  core_dispatch (S fuel) cfg tm data w =
    on_build_request cfg tm (core_dispatch fuel cfg tm) data w.
Proof.
  intros Hfresh. simpl. by rewrite intercept_fresh.
Qed.

Lemma forward_memory_results deliver (mrs : list Event) : forall w,
  Forall (fun e => is_memory_result e = true) mrs ->
  foldl (forward deliver) (Some w) mrs = Some w.
Proof.
  induction mrs as [| e mrs IH]; intros w Hall; [done |].
  apply Forall_cons in Hall as [He Hall]. simpl.
  destruct e as [d | d | n ms t]; try done.
  destruct w. unfold forward. simpl. rewrite app_nil_r. by apply IH.
Qed.

(** The shape of what one run of [build-memories] emits on a request. *)
Lemma build_memories_shape cfg sched timestamp data context atMerge :
  let run := build_memories cfg sched timestamp (BuildRequest data) context atMerge in
  exists mrs tail,
    run_emitted run = mrs ++ tail /\
    Forall (fun e => is_memory_result e = true) mrs /\
    (tail = [] \/ exists merged, tail = [BuildResponse (with_messages data merged)]) /\
    (processedRequestsIds context = processedRequestsIds atMerge ->
     processedRequestsIds (run_context run) = processedRequestsIds context) /\
    ((forall i item, blocking_item cfg i = Some item ->
                     exists ms, buildMemory item (messages data) = Resolved ms) ->
     exists merged, tail = [BuildResponse (with_messages data merged)]).
Proof.
  intros run. subst run. unfold build_memories.
  assert (Hfan : Forall (fun e => is_memory_result e = true)
                   (fan_emitted (blocking_fan_out cfg (messages data) timestamp sched))).
  { apply Forall_forall. intros e He.
    apply fan_emitted_only_results in He as (n & ms & ->). done. }
  destruct (computedMemoriesCache context !! _) as [cached |].
  { exists [], [BuildResponse (with_messages data (memories cached))]. simpl.
    repeat split; [done | by eauto | by eauto]. }
  destruct (fan_rejected _) eqn:Hrej.
  { exists (fan_emitted (blocking_fan_out cfg (messages data) timestamp sched)), [].
    simpl. rewrite app_nil_r. repeat split; [done | by left | done |].
    intros Hall. apply (all_resolved_joins cfg _ timestamp sched) in Hall as [Hrej' _].
    congruence. }
  destruct (fan_pending _) eqn:Hpend.
  { exists (fan_emitted (blocking_fan_out cfg (messages data) timestamp sched)), [].
    simpl. rewrite app_nil_r. repeat split; [done | by left | done |].
    intros Hall. apply (all_resolved_joins cfg _ timestamp sched) in Hall as [_ Hpend'].
    congruence. }
  eexists _, _. simpl. repeat split; [done | by eauto | done | by eauto].
Qed.

(** One submission of an identifier not yet processed: the event is
    dropped, a build-request is emitted, and the forwarder emits at most
    one [agent.resources-response]; it does so exactly when the identifier
    ends up processed. *)
Lemma submit_fresh cfg tm data w :
  requestId data ∉ processedRequestsIds (world_context w) ->
  exists w1,
    submit cfg tm data w = Some w1 /\
    ((requestId data ∈ processedRequestsIds (world_context w1) /\
      exists merged,
        core_emitted w1 = core_emitted w ++ [with_messages data merged] /\
        passed w1 = passed w ++ [with_messages data merged]) \/
     ((requestId data ∉ processedRequestsIds (world_context w1)) /\
      core_emitted w1 = core_emitted w /\ passed w1 = passed w)) /\
    ((forall i item, blocking_item cfg i = Some item ->
                     exists ms, buildMemory item (messages data) = Resolved ms) ->
     requestId data ∈ processedRequestsIds (world_context w1)).
Proof.
  intros Hfresh. unfold submit. rewrite core_dispatch_fresh by done.
  unfold on_build_request.
  set (deliver := core_dispatch 1 cfg tm).
  set (nb := build_non_blocking_memories _ _ _ _).
  set (context := store_all (take _ _) _).
  set (atMerge := store_all (fan_emitted _) context).
  destruct (build_memories_shape cfg (b_order tm) (b_now tm) data context atMerge)
    as (mrs & tail & Hem & Hmrs & Htail & Hproc & Hall).
  assert (Hctx : processedRequestsIds context = processedRequestsIds (world_context w)).
  { subst context. apply store_all_frame. }
  assert (HatMerge : processedRequestsIds context = processedRequestsIds atMerge).
  { subst atMerge. symmetry. apply store_all_frame. }
  specialize (Hproc HatMerge).
  set (run := build_memories _ _ _ _ _ _) in *.
  assert (Hfold : forall w0, foldl (forward deliver) (Some w0) (run_emitted run)
                             = foldl (forward deliver) (Some w0) tail).
  { intros w0. by rewrite Hem, foldl_app, forward_memory_results. }
  rewrite Hfold. clear Hfold.
  destruct Htail as [-> | [merged ->]].
  - simpl. eexists. split; [done |]. split.
    + right. simpl. split; [| done].
      destruct (store_all_frame (drop (nb_early tm) (nb_emitted nb)) (run_context run))
        as [_ ->].
      by rewrite Hproc, Hctx.
    + intros Hres. by destruct (Hall Hres) as [merged Hnil].
  - unfold forward. simpl. subst deliver.
    rewrite core_dispatch_processed
      by (simpl; apply elem_of_union_l; by apply elem_of_singleton).
    simpl.
    assert (Hin : requestId data ∈
                    processedRequestsIds
                      (store_all (drop (nb_early tm) (nb_emitted nb))
                         {| memoriesLastResults := memoriesLastResults (run_context run);
                            memoriesLastTimestamp := memoriesLastTimestamp (run_context run);
                            processedRequestsIds :=
                              {[requestId data]} ∪ processedRequestsIds (run_context run);
                            computedMemoriesCache :=
                              computedMemoriesCache (run_context run) |})).
    { match goal with |- _ ∈ processedRequestsIds (store_all ?l ?c) =>
        destruct (store_all_frame l c) as [_ ->] end.
      simpl. apply elem_of_union_l. by apply elem_of_singleton. }
    eexists. split; [done |]. split; [| by intros _].
    left. simpl. split; [done | by eauto].
Qed.

(** Two rounds of delivery are all a submission takes. *)
Lemma submit_total cfg tm data w : is_Some (submit cfg tm data w).
Proof.
  destruct (decide (requestId data ∈ processedRequestsIds (world_context w)))
    as [Hin | Hfresh].
  - unfold submit. by rewrite core_dispatch_processed.
  - destruct (submit_fresh cfg tm data w Hfresh) as (w1 & -> & _). done.
Qed.

(** C3, as amended. An [agent.resources-response] event whose identifier
    is already in [processedRequestsIds] sets nothing off in the plugin:
    the interceptor emits no build-request for it, and drops nothing. So
    when an identifier not seen before is submitted, and submitted again
    once it is processed, the second submission emits no build-request,
    calls no provider and changes nothing in the context, and the
    forwarder has emitted exactly one [agent.resources-response] for the
    two; the identifier is processed after the first submission whenever
    every blocking provider resolves. The second event is not dropped: it
    goes on to the consumers of the core event as it came, after the one
    the forwarder emitted, so two events with the identifier reach them. *)
Theorem processed_request_is_ignored cfg tm tm' data data' w :
  requestId data' = requestId data ->
  requestId data ∉ processedRequestsIds (world_context w) ->
  (forall context dependencyName event,
      requestId (dep_data event) ∈ processedRequestsIds context ->
      intercept_core_resources_response context dependencyName event = untouched) /\
  exists w1,
    submit cfg tm data w = Some w1 /\
    ((forall i item, blocking_item cfg i = Some item ->
                     exists ms, buildMemory item (messages data) = Resolved ms) ->
     requestId data ∈ processedRequestsIds (world_context w1)) /\
    (requestId data ∈ processedRequestsIds (world_context w1) ->
     exists w2 merged,
       submit cfg tm' data' w1 = Some w2 /\
       trace w2 = trace w1 /\
       calls w2 = calls w1 /\
       world_context w2 = world_context w1 /\
       core_emitted w1 = core_emitted w ++ [with_messages data merged] /\
       core_emitted w2 = core_emitted w ++ [with_messages data merged] /\
       passed w1 = passed w ++ [with_messages data merged] /\
       passed w2 = passed w ++ [with_messages data merged; data']).
Proof.
  intros Hid Hfresh. split; [apply intercept_processed |].
  destruct (submit_fresh cfg tm data w Hfresh) as (w1 & Hw1 & Hcase & Hres).
  exists w1. split; [done |]. split; [done |]. intros Hproc.
  destruct Hcase as [[_ (merged & Hem & Hpass)] | [Hnot _]]; [| done].
  unfold submit. rewrite core_dispatch_processed by by rewrite Hid.
  eexists _, merged. simpl. rewrite Hpass, <- app_assoc. done.
Qed.

End Intake.

(** ** The fingerprint *)

Section Fingerprint.

Import StableSha256.

(** The digest the examples use, against the test vectors of FIPS 180-4:
    "abc", the empty text, and a text of two blocks once padded. *)
Example sha256_hex_abc :
  sha256_hex (String.list_ascii_of_string "abc")
  = "ba7816bf8f01cfea414140de5dae2223b00361a396177a9cb410ff61f20015ad".
Proof. vm_compute. reflexivity. Qed.

Example sha256_hex_empty :
  sha256_hex []
  = "e3b0c44298fc1c149afbf4c8996fb92427ae41e4649b934ca495991b7852b855".
Proof. vm_compute. reflexivity. Qed.

Example sha256_hex_two_blocks :
  sha256_hex
    (String.list_ascii_of_string "abcdbcdecdefdefgefghfghighijhijkijkljklmklmnlmnomnopnopq")
  = "248d6a61d20638b8e5c026930c3e6039a33ce45964ff2167f6ecedd419db06c1".
Proof. vm_compute. reflexivity. Qed.

End Fingerprint.

(** ** Defaults of the memory configuration *)

Section Defaults.

Context `{StableHash}.

Lemma behavior_omitted_blocking item :
  behavior_omitted item -> behavior (config (_definition item)) = blocking.
Proof. induction 1; done. Qed.

(** The merged messages around the segment of one item. *)
Lemma merged_around cfg msgs lastResults i item :
  items cfg !! i = Some item ->
  merged_in_registry_order cfg msgs lastResults
  = concat (map (segment msgs lastResults) (take i (items cfg)))
    ++ segment msgs lastResults item
    ++ concat (map (segment msgs lastResults) (drop (S i) (items cfg))).
Proof.
  intros Hi. unfold merged_in_registry_order.
  rewrite <- (take_drop_middle (items cfg) i item Hi) at 1.
  by rewrite map_app, concat_app.
Qed.

(** C9. A memory whose configuration omits [behavior] is a blocking
    provider: [defineMemory] and [.config] without the field both give
    behavior "blocking". So, for such an item of the registry, on a request
    that misses the cache: a build-response is emitted only once its
    [getOutput] has resolved, after the [memory-result] event that carries
    its output; in the messages of the response its place in registry order
    is taken by that fresh output, whatever the result store holds under
    its name; and the response is emitted when every blocking provider
    resolves. *)
Theorem omitted_behavior_is_blocking
    item cfg i sched timestamp data context atMerge :
  behavior_omitted item ->
  items cfg !! i = Some item ->
  computedMemoriesCache context !! stableObjectSHA256 (messages data) = None ->
  sched ≡ₚ seq 0 (length (items cfg)) ->
  let run := build_memories cfg sched timestamp (BuildRequest data) context atMerge in
  let others := segment (messages data) (memoriesLastResults atMerge) in
  behavior (config (_definition item)) = blocking /\
  (forall d,
      BuildResponse d ∈ run_emitted run ->
      exists ms results,
        buildMemory item (messages data) = Resolved ms /\
        run_emitted run = results ++ [BuildResponse d] /\
        MemoryResult (name (_definition item)) ms timestamp ∈ results /\
        d = with_messages data
              (concat (map others (take i (items cfg)))
               ++ ms
               ++ concat (map others (drop (S i) (items cfg))))) /\
  ((forall j other, blocking_item cfg j = Some other ->
                    exists ms, buildMemory other (messages data) = Resolved ms) ->
   exists d, BuildResponse d ∈ run_emitted run).
Proof.
  intros Hom Hi Hmiss Hperm run others.
  pose proof (behavior_omitted_blocking item Hom) as Hb.
  assert (Hbi : blocking_item cfg i = Some item) by by apply blocking_item_Some.
  assert (Hin : i ∈ sched).
  { rewrite Hperm. apply elem_of_seq. apply lookup_lt_Some in Hi. lia. }
  split; [done |]. split.
  - intros d Hd. subst run. unfold build_memories in *. rewrite Hmiss in *.
    destruct (fan_rejected _) eqn:Hrej.
    { simpl in Hd. apply fan_emitted_only_results in Hd as (? & ? & ?). done. }
    destruct (fan_pending _) eqn:Hpend.
    { simpl in Hd. apply fan_emitted_only_results in Hd as (? & ? & ?). done. }
    simpl in Hd. apply elem_of_app in Hd as [Hd | Hd].
    { apply fan_emitted_only_results in Hd as (? & ? & ?). done. }
    apply list_elem_of_singleton in Hd. injection Hd as ->.
    pose proof (joined_results cfg (messages data) timestamp sched Hperm Hrej Hpend)
      as Hjoin.
    apply fan_rejected_foldl in Hrej as [_ Hrej].
    apply fan_pending_foldl in Hpend as [_ Hpend].
    destruct (buildMemory item (messages data)) as [ms | err |] eqn:Hbm.
    + exists ms, (fan_emitted (blocking_fan_out cfg (messages data) timestamp sched)).
      split; [done |]. split; [done |]. split.
      * unfold blocking_fan_out. rewrite fan_emitted_foldl. simpl.
        apply list_elem_of_omap. exists i. split; [done |].
        unfold emission. rewrite Hbi. simpl. by rewrite Hbm.
      * f_equal.
        rewrite (merge_loop_registry_order cfg (messages data)) by done.
        rewrite (merged_around cfg _ _ i item Hi).
        unfold segment at 2. rewrite Hb. unfold fresh_output. by rewrite Hbm.
    + exfalso. by apply (Hrej i item err).
    + exfalso. by apply (Hpend i item).
  - intros Hall. subst run. unfold build_memories. rewrite Hmiss.
    destruct (all_resolved_joins cfg (messages data) timestamp sched Hall) as [-> ->].
    eexists. simpl. apply elem_of_app. right. by apply list_elem_of_singleton.
Qed.

End Defaults.

(** ** The statements above on the example registries *)

Section Examples.

Import Runtime.

Lemma merged_output_in_registry_order_witness :
  computedMemoriesCache initial_context !! stableObjectSHA256 (messages (request "r1"))
    = None /\
  [2; 0; 1]%nat ≡ₚ seq 0 (length (items a_b_c)) /\
  run_emitted
    (build_memories a_b_c [2; 0; 1]%nat 11 (BuildRequest (request "r1"))
       initial_context b_stored)
  = [MemoryResult "C" [note "c"] 11; MemoryResult "A" [note "a"] 11;
     BuildResponse (with_messages (request "r1") [note "a"; note "b"; note "c"])].
Proof.
  assert (Hmiss : computedMemoriesCache initial_context
                    !! stableObjectSHA256 (messages (request "r1")) = None)
    by apply lookup_empty.
  assert (Hperm : [2; 0; 1]%nat ≡ₚ seq 0 (length (items a_b_c))).
  { simpl. etrans; [apply Permutation_swap |]. apply Permutation_skip, Permutation_swap. }
  split; [exact Hmiss |]. split; [exact Hperm |].
  destruct (merged_output_in_registry_order a_b_c [2; 0; 1]%nat 11 (request "r1")
              initial_context b_stored Hmiss Hperm) as [_ Hall].
  destruct Hall as [_ ->]; [| vm_compute; reflexivity].
  intros i item Hi.
  destruct i as [| [| [| i]]]; vm_compute in Hi; try discriminate;
    injection Hi as <-; eexists; reflexivity.
Defined.

(** The other completion order gives the same build-response; only the
    order of the [memory-result] events follows the completions. *)
Example completion_order_changes_only_the_results_order :
  run_emitted
    (build_memories a_b_c [0; 1; 2]%nat 11 (BuildRequest (request "r1"))
       initial_context b_stored)
  = [MemoryResult "A" [note "a"] 11; MemoryResult "C" [note "c"] 11;
     BuildResponse (with_messages (request "r1") [note "a"; note "b"; note "c"])].
Proof. vm_compute. reflexivity. Qed.

(** C2 on the code. With the registry [failing; facts], where the blocking
    provider [failing] throws "boom": [Promise.all] rejects and the loop
    body of [build-memories] throws, so the service emits the
    [memory-result] of [facts] and no build-response, and nothing reaches
    the core plugin; the merge of the specification would have been [F1],
    with an empty segment for [failing]. *)
Theorem blocking_provider_throw_leaves_no_response :
  run_completion
    (build_memories failing_then_facts [0; 1]%nat 11 (BuildRequest (request "r1"))
       initial_context initial_context) = Threw "boom" /\
  run_emitted
    (build_memories failing_then_facts [0; 1]%nat 11 (BuildRequest (request "r1"))
       initial_context initial_context) = [MemoryResult "facts" [F1] 11] /\
  core_emitted <$> submit failing_then_facts some_timing (request "r1") initial_world
    = Some [] /\
  merged_in_registry_order failing_then_facts (messages (request "r1")) ∅ = [F1].
Proof. vm_compute. repeat split; reflexivity. Qed.

(** Against C3 as stated: the request [r1] is submitted, processed, and
    submitted again. The forwarder emits once, but two
    [agent.resources-response] events with the identifier reach the
    consumers: the one the forwarder emitted, and the second submission as
    it came, which the interceptor did not drop. And as long as the
    identifier is not processed (here after the first run of
    [build-memories], before its response is forwarded) the same event is
    dropped and turned into a build-request again, which is answered and
    forwarded in its turn. *)
Lemma duplicate_reaches_the_consumers :
  exists w1 w2,
    submit facts_and_recent some_timing (request "r1") initial_world = Some w1 /\
    bool_decide (requestId (request "r1") ∈ processedRequestsIds (world_context w1))
      = true /\
    submit facts_and_recent some_timing (request "r1") w1 = Some w2 /\
    core_emitted w2 = [with_messages (request "r1") [F1]] /\
    passed w2 = [with_messages (request "r1") [F1]; request "r1"] /\
    map requestId (passed w2) = ["r1"; "r1"] /\
    bool_decide
      (requestId (request "r1") ∈ processedRequestsIds (run_context first_run_r1))
      = false /\
    intercept_core_resources_response (run_context first_run_r1) "core" core_response_r1
      = {| dropped := Some "Will be re-emitted by memories later.";
           intercepted := [BuildRequest (request "r1")] |} /\
    List.filter is_build_response (run_emitted first_run_r1)
      = [BuildResponse (with_messages (request "r1") [F1])] /\
    run_emitted
      (build_memories facts_and_recent [0; 1]%nat 12 (BuildRequest (request "r1"))
         (run_context first_run_r1) (run_context first_run_r1))
      = [BuildResponse (with_messages (request "r1") [F1])].
Proof.
  eexists _, _. split; [vm_compute; reflexivity |].
  split; [vm_compute; reflexivity |].
  split; [vm_compute; reflexivity |].
  vm_compute. repeat split; reflexivity.
Qed.

Lemma processed_request_is_ignored_witness :
  requestId (request "r1") = requestId (request "r1") /\
  (requestId (request "r1") ∉ processedRequestsIds (world_context initial_world)) /\
  exists w1 w2,
    submit facts_and_recent some_timing (request "r1") initial_world = Some w1 /\
    submit facts_and_recent some_timing (request "r1") w1 = Some w2 /\
    core_emitted w2 = [with_messages (request "r1") [F1]] /\
    passed w2 = [with_messages (request "r1") [F1]; request "r1"] /\
    trace w2 = trace w1.
Proof.
  assert (Hfresh : requestId (request "r1")
                     ∉ processedRequestsIds (world_context initial_world))
    by apply not_elem_of_empty.
  split; [reflexivity |]. split; [exact Hfresh |].
  destruct (processed_request_is_ignored facts_and_recent some_timing some_timing
              (request "r1") (request "r1") initial_world eq_refl Hfresh)
    as (_ & w1 & Hw1 & _ & Hnext).
  destruct Hnext as (w2 & merged & Hw2 & Htrace & _ & _ & Hem1 & Hem2 & _ & Hpass).
  { vm_compute in Hw1. injection Hw1 as <-.
    apply (bool_decide_unpack _). vm_compute. exact I. }
  exists w1, w2. split; [exact Hw1 |]. split; [exact Hw2 |].
  rewrite Hem2, Hpass. vm_compute in Hw1. injection Hw1 as <-.
  vm_compute in Hem1. injection Hem1 as <-.
  split; [reflexivity |]. split; [reflexivity | exact Htrace].
Defined.

(** Against C4 as stated: on a cache hit the provider [recent] is called
    all the same, and its result emitted. *)
Lemma cache_hit_still_calls_non_blocking_providers :
  computedMemoriesCache cached_F1 !! stableObjectSHA256 (messages (request "r2"))
    = Some {| hash := stableObjectSHA256 [U1]; memories := [F1] |} /\
  nb_invoked
    (build_non_blocking_memories facts_and_recent [0; 1]%nat 12
       (BuildRequest (request "r2"))) = [1%nat] /\
  nb_emitted
    (build_non_blocking_memories facts_and_recent [0; 1]%nat 12
       (BuildRequest (request "r2"))) = [MemoryResult "recent" [R1] 12].
Proof.
  split; [apply lookup_insert_eq |]. vm_compute. split; reflexivity.
Qed.

Lemma cache_hit_skips_blocking_providers_witness :
  computedMemoriesCache cached_F1 !! stableObjectSHA256 (messages (request "r2"))
    = Some {| hash := stableObjectSHA256 [U1]; memories := [F1] |} /\
  run_emitted
    (build_memories facts_and_recent [0; 1]%nat 12 (BuildRequest (request "r2"))
       cached_F1 initial_context)
  = [BuildResponse (with_messages (request "r2") [F1])] /\
  run_invoked
    (build_memories facts_and_recent [0; 1]%nat 12 (BuildRequest (request "r2"))
       cached_F1 initial_context) = [].
Proof.
  assert (Hhit : computedMemoriesCache cached_F1
                   !! stableObjectSHA256 (messages (request "r2"))
                 = Some {| hash := stableObjectSHA256 [U1]; memories := [F1] |})
    by apply lookup_insert_eq.
  split; [exact Hhit |].
  destruct (cache_hit_skips_blocking_providers facts_and_recent [0; 1]%nat 12
              [0; 1]%nat 12 (request "r2") cached_F1 initial_context _ Hhit)
    as (Hem & Hinv & _).
  split; [exact Hem | exact Hinv].
Defined.

Lemma cache_entry_survives_store_updates_witness :
  computedMemoriesCache initial_context !! stableObjectSHA256 (messages (request "r1"))
    = None /\
  run_completion
    (build_memories facts_and_recent [0; 1]%nat 11 (BuildRequest (request "r1"))
       initial_context initial_context) = Responded /\
  stableObjectSHA256 (messages (request "r2"))
    = stableObjectSHA256 (messages (request "r1")) /\
  memoriesLastResults
    (store_all [MemoryResult "recent" [R1] 10]
       (run_context
          (build_memories facts_and_recent [0; 1]%nat 11 (BuildRequest (request "r1"))
             initial_context initial_context))) !! "recent" = Some [R1] /\
  run_emitted
    (build_memories facts_and_recent [1; 0]%nat 20 (BuildRequest (request "r2"))
       (store_all [MemoryResult "recent" [R1] 10]
          (run_context
             (build_memories facts_and_recent [0; 1]%nat 11
                (BuildRequest (request "r1")) initial_context initial_context)))
       (store_all [MemoryResult "recent" [R1] 10] initial_context))
  = [BuildResponse (with_messages (request "r2") [F1])].
Proof.
  assert (Hmiss : computedMemoriesCache initial_context
                    !! stableObjectSHA256 (messages (request "r1")) = None)
    by apply lookup_empty.
  assert (Hresp : run_completion
                    (build_memories facts_and_recent [0; 1]%nat 11
                       (BuildRequest (request "r1")) initial_context initial_context)
                  = Responded)
    by (vm_compute; reflexivity).
  split; [exact Hmiss |]. split; [exact Hresp |]. split; [reflexivity |].
  split; [vm_compute; reflexivity |].
  destruct (cache_entry_survives_store_updates facts_and_recent [0; 1]%nat 11
              [1; 0]%nat 20 (request "r1") (request "r2") initial_context initial_context
              (store_all [MemoryResult "recent" [R1] 10] initial_context)
              [MemoryResult "recent" [R1] 10] Hmiss Hresp eq_refl)
    as (_ & _ & ->).
  vm_compute. reflexivity.
Defined.

Lemma omitted_behavior_is_blocking_witness :
  behavior_omitted (provider "A" None (Resolved [note "a"])) /\
  items a_b_c !! 0%nat = Some (provider "A" None (Resolved [note "a"])) /\
  computedMemoriesCache a_kept !! stableObjectSHA256 (messages (request "r1")) = None /\
  [2; 0; 1]%nat ≡ₚ seq 0 (length (items a_b_c)) /\
  memoriesLastResults a_kept_at_merge !! "A" = Some [note "kept"] /\
  exists ms results,
    buildMemory (provider "A" None (Resolved [note "a"])) (messages (request "r1"))
      = Resolved ms /\
    run_emitted
      (build_memories a_b_c [2; 0; 1]%nat 11 (BuildRequest (request "r1"))
         a_kept a_kept_at_merge)
    = results
      ++ [BuildResponse (with_messages (request "r1") [note "a"; note "b"; note "c"])] /\
    MemoryResult "A" ms 11 ∈ results /\
    ms = [note "a"].
Proof.
  assert (Hom : behavior_omitted (provider "A" None (Resolved [note "a"]))).
  { apply omitted_getOutput, omitted_config. }
  assert (Hi : items a_b_c !! 0%nat = Some (provider "A" None (Resolved [note "a"])))
    by reflexivity.
  assert (Hmiss : computedMemoriesCache a_kept
                    !! stableObjectSHA256 (messages (request "r1")) = None)
    by (vm_compute; reflexivity).
  assert (Hperm : [2; 0; 1]%nat ≡ₚ seq 0 (length (items a_b_c))).
  { simpl. etrans; [apply Permutation_swap |]. apply Permutation_skip, Permutation_swap. }
  split; [exact Hom |]. split; [exact Hi |]. split; [exact Hmiss |].
  split; [exact Hperm |]. split; [vm_compute; reflexivity |].
  destruct (omitted_behavior_is_blocking _ a_b_c 0%nat [2; 0; 1]%nat 11 (request "r1")
              a_kept a_kept_at_merge Hom Hi Hmiss Hperm) as (_ & Hresp & _).
  destruct (Hresp (with_messages (request "r1") [note "a"; note "b"; note "c"]))
    as (ms & results & Hms & Hem & Hin & _).
  { apply list_elem_of_In. vm_compute. tauto. }
  exists ms, results. split; [exact Hms |]. split; [exact Hem |]. split; [exact Hin |].
  vm_compute in Hms. injection Hms as <-. reflexivity.
Defined.

(** The end-to-end example of the specification, through the runtime: the
    first request is answered with [F1] and the result of [recent] is
    stored afterwards; a second request with the same history is answered
    from the cache, still with [F1]. *)
Example end_to_end_two_rounds :
  (w1 ← submit facts_and_recent some_timing (request "r1") initial_world;
   w2 ← submit facts_and_recent some_timing (request "r2") w1;
   Some (core_emitted w1, memoriesLastResults (world_context w1) !! "recent",
         core_emitted w2))
  = Some ([with_messages (request "r1") [F1]], Some [R1],
          [with_messages (request "r1") [F1]; with_messages (request "r2") [F1]]).
Proof. vm_compute. reflexivity. Qed.

(** When the result of [recent] is stored before the merge, the first
    response already carries it: the first round depends on timing. *)
Example early_non_blocking_result_is_merged :
  core_emitted <$>
    submit facts_and_recent
      {| nb_now := 10; nb_order := [0; 1]%nat; nb_early := 1;
         b_now := 11; b_order := [0; 1]%nat |}
      (request "r1") initial_world
  = Some [with_messages (request "r1") [F1; R1]].
Proof. vm_compute. reflexivity. Qed.

End Examples.

(** * Further properties *)

(** ** The result store under many events *)

Section StoreConvergence.

Implicit Types (c : Context) (n : string) (ms : list Message) (t : Z)
  (e : Event) (evs : list Event).

Lemma stored_timestamp_store e c n :
  stored_timestamp (store_memory_result e c) n =
    match e with
    | MemoryResult n' _ t =>
        if decide (n' = n) then Z.max (stored_timestamp c n) t else stored_timestamp c n
    | _ => stored_timestamp c n
    end.
Proof.
  destruct e as [d | d | n' ms t]; try done.
  destruct (decide (stored_timestamp c n' <= t)%Z) as [Hle | Hgt].
  - rewrite store_newer by done. unfold stored_timestamp in *. simpl.
    case_decide as Hn.
    + subst n'. rewrite lookup_insert_eq. simpl. lia.
    + by rewrite lookup_insert_ne.
  - rewrite store_older by lia. case_decide as Hn; [| done]. subst n'. lia.
Qed.

(** X2. After any sequence of events, the timestamp the effect compares
    with, for a provider, is the greatest among the one it started from and
    those of the results of that provider in the sequence, in whatever
    order they came; so it never goes down. *)
Theorem stored_timestamp_is_the_latest evs c n :
  stored_timestamp (store_all evs c) n = latest_timestamp n evs (stored_timestamp c n) /\
  (stored_timestamp c n <= stored_timestamp (store_all evs c) n)%Z.
Proof.
  assert (Hmono : forall l z, (z <= latest_timestamp n l z)%Z).
  { induction l as [| e l IH]; intros z; [done |].
    unfold latest_timestamp in *. simpl.
    destruct e as [d | d | n' ms t]; try apply IH.
    case_decide; [| apply IH]. etrans; [| apply IH]. lia. }
  assert (Heq : forall l c', stored_timestamp (store_all l c') n
                            = latest_timestamp n l (stored_timestamp c' n)).
  { induction l as [| e l IH]; intros c'; [done |].
    unfold store_all, latest_timestamp in *. simpl.
    rewrite IH, stored_timestamp_store. by destruct e. }
  split; [apply Heq |]. rewrite Heq. apply Hmono.
Qed.

(** X3. Delivering the same [memory-result] event twice changes nothing
    more than delivering it once, and an event never touches what is
    stored under another name. *)
Theorem store_memory_result_idempotent_and_local n ms t c :
  store_memory_result (MemoryResult n ms t) (store_memory_result (MemoryResult n ms t) c)
  = store_memory_result (MemoryResult n ms t) c /\
  forall n', n' <> n ->
    memoriesLastResults (store_memory_result (MemoryResult n ms t) c) !! n'
    = memoriesLastResults c !! n' /\
    memoriesLastTimestamp (store_memory_result (MemoryResult n ms t) c) !! n'
    = memoriesLastTimestamp c !! n'.
Proof.
  split.
  - destruct (decide (stored_timestamp c n <= t)%Z) as [Hle | Hgt].
    + rewrite (store_newer c) by done.
      rewrite store_newer
        by (unfold stored_timestamp; simpl; rewrite lookup_insert_eq; simpl; lia).
      simpl. by rewrite !insert_insert_eq.
    + by rewrite !(store_older c) by lia.
  - intros n' Hne. simpl. destruct (t >=? _)%Z; [| done]. simpl.
    by rewrite !lookup_insert_ne.
Qed.

Lemma store_commute_same_name c n ms1 ms2 t1 t2 :
  (t1 < t2)%Z ->
  store_memory_result (MemoryResult n ms2 t2) (store_memory_result (MemoryResult n ms1 t1) c)
  = store_memory_result (MemoryResult n ms1 t1) (store_memory_result (MemoryResult n ms2 t2) c).
Proof.
  intros Hlt.
  destruct (decide (stored_timestamp c n <= t1)%Z) as [H1 | H1].
  - rewrite (store_newer c n ms1 t1) by done.
    rewrite (store_newer c n ms2 t2) by lia.
    rewrite store_newer
      by (unfold stored_timestamp; simpl; rewrite lookup_insert_eq; simpl; lia).
    rewrite store_older
      by (unfold stored_timestamp; simpl; rewrite lookup_insert_eq; simpl; lia).
    simpl. by rewrite !insert_insert_eq.
  - rewrite (store_older c n ms1 t1) by lia.
    destruct (decide (stored_timestamp c n <= t2)%Z) as [H2 | H2].
    + rewrite (store_newer c n ms2 t2) by done.
      by rewrite store_older
        by (unfold stored_timestamp; simpl; rewrite lookup_insert_eq; simpl; lia).
    + rewrite (store_older c n ms2 t2) by lia.
      by rewrite store_older by lia.
Qed.

Lemma store_commute_other_name c n1 n2 ms1 ms2 t1 t2 :
  n1 <> n2 ->
  store_memory_result (MemoryResult n2 ms2 t2) (store_memory_result (MemoryResult n1 ms1 t1) c)
  = store_memory_result (MemoryResult n1 ms1 t1) (store_memory_result (MemoryResult n2 ms2 t2) c).
Proof.
  intros Hne.
  assert (Hts : forall c' n n' ms t, n <> n' ->
            stored_timestamp (store_memory_result (MemoryResult n ms t) c') n'
            = stored_timestamp c' n').
  { intros c' n n' ms t Hn. rewrite stored_timestamp_store. by case_decide. }
  destruct (decide (stored_timestamp c n1 <= t1)%Z) as [H1 | H1],
           (decide (stored_timestamp c n2 <= t2)%Z) as [H2 | H2].
  - rewrite (store_newer c n1) by done. rewrite (store_newer c n2) by done.
    rewrite store_newer
      by (unfold stored_timestamp in *; simpl; by rewrite lookup_insert_ne).
    rewrite store_newer
      by (unfold stored_timestamp in *; simpl; by rewrite lookup_insert_ne).
    simpl. f_equal; by apply insert_insert_ne.
  - rewrite (store_older c n2) by lia. rewrite (store_newer c n1) by done.
    rewrite store_older; [done |].
    unfold stored_timestamp in *. simpl. rewrite lookup_insert_ne by done. lia.
  - rewrite (store_older c n1) by lia. rewrite (store_newer c n2) by done.
    rewrite store_older; [done |].
    unfold stored_timestamp in *. simpl. rewrite lookup_insert_ne by done. lia.
  - rewrite (store_older c n1) by lia. rewrite (store_older c n2) by lia.
    by rewrite (store_older c n1) by lia.
Qed.

Lemma store_commute e1 e2 c :
  (event_key e1 = None \/ event_key e1 <> event_key e2) ->
  store_memory_result e2 (store_memory_result e1 c)
  = store_memory_result e1 (store_memory_result e2 c).
Proof.
  intros Hkeys.
  destruct e1 as [d1 | d1 | n1 ms1 t1]; try done.
  destruct e2 as [d2 | d2 | n2 ms2 t2]; try done.
  destruct Hkeys as [Hnone | Hne]; [done |]. simpl in Hne.
  destruct (decide (n1 = n2)) as [-> | Hn]; [| by apply store_commute_other_name].
  destruct (Z.lt_trichotomy t1 t2) as [Hlt | [-> | Hgt]].
  - by apply store_commute_same_name.
  - done.
  - symmetry. by apply store_commute_same_name.
Qed.

(** X1. The store converges whatever the order of arrival: two sequences of
    events that are permutations of each other, in which no two results
    carry the same provider name and the same timestamp, leave the same
    context. *)
Theorem store_all_order_independent evs evs' c :
  evs ≡ₚ evs' ->
  NoDup (omap event_key evs) ->
  store_all evs c = store_all evs' c.
Proof.
  intros Hperm. revert c.
  induction Hperm as [| e l l' Hperm IH | e1 e2 l | l1 l2 l3 H12 IH12 H23 IH23];
    intros c Hnd.
  - done.
  - unfold store_all in *. simpl. apply IH.
    simpl in Hnd. destruct (event_key e); [by apply NoDup_cons in Hnd as [_ ?] | done].
  - unfold store_all. simpl. f_equal. symmetry. apply store_commute.
    simpl in Hnd. destruct (event_key e1) as [k1 |] eqn:H1; [| by left].
    right. destruct (event_key e2) as [k2 |] eqn:H2; [| done].
    simpl in Hnd. apply NoDup_cons in Hnd as [Hnin _].
    intros [= ->]. apply Hnin. by left.
  - rewrite IH12 by done. apply IH23.
    assert (Hp : omap event_key l1 ≡ₚ omap event_key l2) by by rewrite H12.
    by rewrite <- Hp.
Qed.

Lemma store_all_order_independent_witness :
  [MemoryResult "X" [note "a"] 7; MemoryResult "Y" [note "y"] 3;
   MemoryResult "X" [note "b"] 9]
    ≡ₚ [MemoryResult "X" [note "b"] 9; MemoryResult "Y" [note "y"] 3;
        MemoryResult "X" [note "a"] 7] /\
  NoDup (omap event_key
           [MemoryResult "X" [note "a"] 7; MemoryResult "Y" [note "y"] 3;
            MemoryResult "X" [note "b"] 9]) /\
  store_all [MemoryResult "X" [note "a"] 7; MemoryResult "Y" [note "y"] 3;
             MemoryResult "X" [note "b"] 9] initial_context
  = store_all [MemoryResult "X" [note "b"] 9; MemoryResult "Y" [note "y"] 3;
               MemoryResult "X" [note "a"] 7] initial_context.
Proof.
  assert (Hperm : [MemoryResult "X" [note "a"] 7; MemoryResult "Y" [note "y"] 3;
                   MemoryResult "X" [note "b"] 9]
                    ≡ₚ [MemoryResult "X" [note "b"] 9; MemoryResult "Y" [note "y"] 3;
                        MemoryResult "X" [note "a"] 7]).
  { etrans; [apply Permutation_skip, Permutation_swap |].
    etrans; [apply Permutation_swap |].
    apply Permutation_skip, Permutation_swap. }
  assert (Hnd : NoDup (omap event_key
                         [MemoryResult "X" [note "a"] 7; MemoryResult "Y" [note "y"] 3;
                          MemoryResult "X" [note "b"] 9])).
  { apply (bool_decide_unpack _). vm_compute. exact I. }
  split; [exact Hperm |]. split; [exact Hnd |].
  exact (store_all_order_independent _ _ initial_context Hperm Hnd).
Defined.

End StoreConvergence.

(** ** The two services, further *)

Section Services.

Context `{StableHash}.

Implicit Types (cfg : Config) (sched order : list nat) (data : ResourcesData)
  (context atMerge : Context) (item : MemoryDefinitionBuilder).

Lemma non_blocking_item_Some cfg i item :
  non_blocking_item cfg i = Some item <->
  items cfg !! i = Some item /\ behavior (config (_definition item)) = non_blocking.
Proof.
  unfold non_blocking_item. destruct (items cfg !! i) as [it |]; simpl.
  - case_decide as Hb.
    + split; [by intros [= ->] | by intros [[= ->] _]].
    + split; [done | intros [[= ->] Hb']; done].
  - split; [done | by intros [? _]].
Qed.

Lemma nb_settle_cases cfg msgs timestamp acc i :
  nb_settle cfg msgs timestamp acc i =
    match non_blocking_item cfg i with
    | Some item =>
        match buildMemory item msgs with
        | Resolved ms =>
            {| nb_emitted :=
                 nb_emitted acc ++ [MemoryResult (name (_definition item)) ms timestamp];
               nb_logged := nb_logged acc; nb_invoked := nb_invoked acc |}
        | Rejected err =>
            {| nb_emitted := nb_emitted acc;
               nb_logged := nb_logged acc ++ [(name (_definition item), err)];
               nb_invoked := nb_invoked acc |}
        | Pending => acc
        end
    | None => acc
    end.
Proof.
  unfold nb_settle, non_blocking_item.
  destruct (items cfg !! i) as [item |]; simpl; [| done].
  destruct (behavior (config (_definition item))); by case_decide.
Qed.

Lemma nb_foldl cfg msgs timestamp order : forall acc,
  nb_emitted (foldl (nb_settle cfg msgs timestamp) acc order)
    = nb_emitted acc ++ omap (nb_emission cfg msgs timestamp) order /\
  nb_logged (foldl (nb_settle cfg msgs timestamp) acc order)
    = nb_logged acc ++ omap (nb_failure cfg msgs) order.
Proof.
  induction order as [| i order IH]; intros acc; simpl.
  - by rewrite !app_nil_r.
  - destruct (IH (nb_settle cfg msgs timestamp acc i)) as [-> ->].
    rewrite nb_settle_cases. unfold nb_emission at 2, nb_failure at 2.
    destruct (non_blocking_item cfg i) as [item |]; simpl; [| done].
    destruct (buildMemory item msgs); simpl; by rewrite <- ?app_assoc.
Qed.

(** X4. In [build-non-blocking-memories] a provider that fails, or never
    answers, takes nothing from the others: the events emitted are exactly
    the results of the non-blocking providers that resolved, each with the
    timestamp read before the loop; the failures logged are exactly those of
    the non-blocking providers that rejected; no blocking provider shows in
    either. *)
Theorem non_blocking_failures_are_isolated cfg order timestamp data :
  (forall e,
      e ∈ nb_emitted (build_non_blocking_memories cfg order timestamp (BuildRequest data))
      <-> exists i item ms,
            i ∈ order /\ non_blocking_item cfg i = Some item /\
            buildMemory item (messages data) = Resolved ms /\
            e = MemoryResult (name (_definition item)) ms timestamp) /\
  (forall n err,
      (n, err) ∈ nb_logged (build_non_blocking_memories cfg order timestamp (BuildRequest data))
      <-> exists i item,
            i ∈ order /\ non_blocking_item cfg i = Some item /\
            buildMemory item (messages data) = Rejected err /\
            n = name (_definition item)).
Proof.
  simpl.
  destruct (nb_foldl cfg (messages data) timestamp order
              {| nb_emitted := []; nb_logged := [];
                 nb_invoked := invoked non_blocking cfg |}) as [-> ->].
  simpl. split.
  - intros e. rewrite list_elem_of_omap. split.
    + intros (i & Hin & Hi). unfold nb_emission in Hi.
      destruct (non_blocking_item cfg i) as [item |] eqn:Hit; simpl in Hi; [| done].
      destruct (buildMemory item (messages data)) as [ms | |] eqn:Hb; simplify_eq.
      by exists i, item, ms.
    + intros (i & item & ms & Hin & Hit & Hb & ->). exists i. split; [done |].
      unfold nb_emission. rewrite Hit. simpl. by rewrite Hb.
  - intros n err. rewrite list_elem_of_omap. split.
    + intros (i & Hin & Hi). unfold nb_failure in Hi.
      destruct (non_blocking_item cfg i) as [item |] eqn:Hit; simpl in Hi; [| done].
      destruct (buildMemory item (messages data)) as [| err' |] eqn:Hb; simplify_eq.
      by exists i, item.
    + intros (i & item & Hin & Hit & Hb & ->). exists i. split; [done |].
      unfold nb_failure. rewrite Hit. simpl. by rewrite Hb.
Qed.

(** X5. The response waits for every blocking provider: when one that the
    fan-out reaches never settles, no build-response is emitted for the
    request and no cache entry is written, whatever the others do. *)
Theorem outstanding_blocking_provider_holds_the_response
    cfg sched timestamp data context atMerge i item :
  computedMemoriesCache context !! stableObjectSHA256 (messages data) = None ->
  i ∈ sched ->
  blocking_item cfg i = Some item ->
  buildMemory item (messages data) = Pending ->
  let run := build_memories cfg sched timestamp (BuildRequest data) context atMerge in
  List.filter is_build_response (run_emitted run) = [] /\
  computedMemoriesCache (run_context run) = computedMemoriesCache atMerge /\
  (run_completion run = Suspended \/ exists err, run_completion run = Threw err).
Proof.
  intros Hmiss Hin Hi Hb run. subst run. unfold build_memories. rewrite Hmiss.
  assert (Hnone : List.filter is_build_response
                    (fan_emitted (blocking_fan_out cfg (messages data) timestamp sched))
                  = []).
  { apply filter_drops_all. intros e He.
    apply fan_emitted_only_results in He as (n & ms & ->). done. }
  destruct (fan_rejected _) as [err |]; [by eauto |].
  destruct (fan_pending _) eqn:Hpend; [by eauto |].
  exfalso. apply fan_pending_foldl in Hpend as [_ Hpend]. by apply (Hpend i item).
Qed.

Lemma no_blocking_item cfg :
  Forall (fun item => behavior (config (_definition item)) = non_blocking) (items cfg) ->
  forall i, blocking_item cfg i = None.
Proof.
  intros Hall i. destruct (blocking_item cfg i) as [item |] eqn:Hi; [| done].
  apply blocking_item_Some in Hi as [Hi Hb].
  rewrite Forall_forall in Hall. apply list_elem_of_lookup_2 in Hi.
  specialize (Hall _ Hi). congruence.
Qed.

Lemma fan_out_without_blocking cfg msgs timestamp sched :
  (forall i, blocking_item cfg i = None) ->
  blocking_fan_out cfg msgs timestamp sched = fan_start.
Proof.
  intros Hnone. unfold blocking_fan_out. generalize fan_start.
  induction sched as [| i sched IH]; intros acc; simpl; [done |].
  by rewrite settle_not_blocking.
Qed.

Lemma invoked_from_none b (l : list MemoryDefinitionBuilder) : forall k,
  Forall (fun item => behavior (config (_definition item)) <> b) l ->
  invoked_from k b l = [].
Proof.
  induction l as [| it l IH]; intros k Hall; simpl; [done |].
  apply Forall_cons in Hall as [Hit Hall].
  destruct (getOutput (_definition it)) as [[ms | f] |]; try by apply IH.
  case_decide; [done | by apply IH].
Qed.

(** X6. With a registry that holds no blocking provider (the empty
    registry among them) the service [build-memories] answers a request
    that misses the cache without waiting, whatever the schedule: the
    service itself calls no provider and emits no [memory-result]; its
    only event is the response, which carries the stored results of the
    providers in registry order, so no message at all when nothing is
    stored or registered. (What [build-non-blocking-memories] does on the
    same request is another matter: it calls these providers.) *)
Theorem registry_without_blocking_provider
    cfg sched timestamp data context atMerge :
  computedMemoriesCache context !! stableObjectSHA256 (messages data) = None ->
  Forall (fun item => behavior (config (_definition item)) = non_blocking) (items cfg) ->
  let run := build_memories cfg sched timestamp (BuildRequest data) context atMerge in
  run_emitted run =
    [BuildResponse
       (with_messages data
          (concat (map (stored_result (memoriesLastResults atMerge)) (items cfg))))] /\
  run_completion run = Responded /\
  run_invoked run = [].
Proof.
  intros Hmiss Hall run. subst run. unfold build_memories. rewrite Hmiss.
  pose proof (no_blocking_item cfg Hall) as Hnone.
  rewrite fan_out_without_blocking by done. simpl.
  rewrite (merge_loop_registry_order cfg (messages data))
    by (intros i item Hi; by rewrite Hnone in Hi).
  split; [| split; [done |]].
  - do 3 f_equal. unfold merged_in_registry_order. f_equal.
    apply map_ext_Forall. eapply Forall_impl; [exact Hall |].
    intros item Hb. unfold segment, stored_result. by rewrite Hb.
  - apply invoked_from_none. eapply Forall_impl; [exact Hall |].
    intros item Hb. congruence.
Qed.

(** X7. One run of [build-memories] on a build-request emits results and
    then at most one build-response, never a build-request; the response
    carries the identifier and the pass-through fields of the request, and
    it is there exactly when the run completed. *)
Theorem at_most_one_response_with_the_request_fields
    cfg sched timestamp data context atMerge :
  exists results tail,
    run_emitted (build_memories cfg sched timestamp (BuildRequest data) context atMerge)
      = results ++ tail /\
    Forall (fun e => is_memory_result e = true) results /\
    ((tail = [] /\
      run_completion
        (build_memories cfg sched timestamp (BuildRequest data) context atMerge)
        <> Responded) \/
     (exists d, tail = [BuildResponse d] /\
                requestId d = requestId data /\ passthrough d = passthrough data /\
                run_completion
                  (build_memories cfg sched timestamp (BuildRequest data) context atMerge)
                  = Responded)).
Proof.
  unfold build_memories.
  assert (Hfan : Forall (fun e => is_memory_result e = true)
                   (fan_emitted (blocking_fan_out cfg (messages data) timestamp sched))).
  { apply Forall_forall. intros e He.
    apply fan_emitted_only_results in He as (n & ms & ->). done. }
  destruct (computedMemoriesCache context !! _) as [cached |].
  { exists [], [BuildResponse (with_messages data (memories cached))]. simpl.
    split; [done |]. split; [done |]. right. by eexists. }
  destruct (fan_rejected _).
  { eexists _, []. simpl. rewrite app_nil_r. split; [done |]. split; [done |]. by left. }
  destruct (fan_pending _).
  { eexists _, []. simpl. rewrite app_nil_r. split; [done |]. split; [done |]. by left. }
  eexists _, _. simpl. split; [done |]. split; [done |]. right. by eexists.
Qed.

(** X8. A run that misses the cache and completes writes one cache entry:
    under the hash of the request's messages, holding that hash and exactly
    the messages of the response it emits; every other entry, and the rest
    of the context, stay as they were. So entries always sit under their
    own hash. *)
Theorem cache_write_matches_the_response
    cfg sched timestamp data context atMerge :
  computedMemoriesCache context !! stableObjectSHA256 (messages data) = None ->
  run_completion (build_memories cfg sched timestamp (BuildRequest data) context atMerge)
    = Responded ->
  let run := build_memories cfg sched timestamp (BuildRequest data) context atMerge in
  let messagesHash := stableObjectSHA256 (messages data) in
  exists merged,
    last (run_emitted run) = Some (BuildResponse (with_messages data merged)) /\
    computedMemoriesCache (run_context run)
      = <[messagesHash := {| hash := messagesHash; memories := merged |}]>
          (computedMemoriesCache atMerge) /\
    memoriesLastResults (run_context run) = memoriesLastResults atMerge /\
    memoriesLastTimestamp (run_context run) = memoriesLastTimestamp atMerge /\
    processedRequestsIds (run_context run) = processedRequestsIds atMerge /\
    ((forall k e, computedMemoriesCache atMerge !! k = Some e -> hash e = k) ->
     forall k e, computedMemoriesCache (run_context run) !! k = Some e -> hash e = k).
Proof.
  intros Hmiss Hresp run messagesHash. subst run messagesHash.
  revert Hresp. unfold build_memories. rewrite Hmiss.
  destruct (fan_rejected _); [done |].
  destruct (fan_pending _); [done |].
  intros _. eexists. simpl. split; [by rewrite last_snoc |].
  split; [done |]. split; [done |]. split; [done |]. split; [done |].
  intros Hkeyed k e.
  destruct (decide (stableObjectSHA256 (messages data) = k)) as [<- | Hne].
  - rewrite lookup_insert_eq. by intros [= <-].
  - rewrite lookup_insert_ne by done. apply Hkeyed.
Qed.

Lemma fan_emitted_names cfg msgs timestamp sched n ms t :
  MemoryResult n ms t ∈ fan_emitted (blocking_fan_out cfg msgs timestamp sched) ->
  n ∈ registry_names cfg.
Proof.
  unfold blocking_fan_out. rewrite fan_emitted_foldl. simpl.
  intros (i & _ & Hi)%list_elem_of_omap. unfold emission in Hi.
  destruct (blocking_item cfg i) as [item |] eqn:Hit; simpl in Hi; [| done].
  destruct (buildMemory item msgs); simplify_eq.
  apply blocking_item_Some in Hit as [Hit _]. apply list_elem_of_lookup_2 in Hit.
  unfold registry_names. apply elem_of_list_to_set, list_elem_of_fmap. by exists item.
Qed.

Lemma nb_emitted_names cfg order timestamp data n ms t :
  MemoryResult n ms t
    ∈ nb_emitted (build_non_blocking_memories cfg order timestamp (BuildRequest data)) ->
  n ∈ registry_names cfg.
Proof.
  simpl.
  destruct (nb_foldl cfg (messages data) timestamp order
              {| nb_emitted := []; nb_logged := [];
                 nb_invoked := invoked non_blocking cfg |}) as [-> _].
  simpl. intros (i & _ & Hi)%list_elem_of_omap. unfold nb_emission in Hi.
  destruct (non_blocking_item cfg i) as [item |] eqn:Hit; simpl in Hi; [| done].
  destruct (buildMemory item (messages data)); simplify_eq.
  apply non_blocking_item_Some in Hit as [Hit _]. apply list_elem_of_lookup_2 in Hit.
  unfold registry_names. apply elem_of_list_to_set, list_elem_of_fmap. by exists item.
Qed.

Lemma store_all_dom evs : forall c n,
  n ∈ dom (memoriesLastResults (store_all evs c)) ->
  n ∈ dom (memoriesLastResults c) \/ exists ms t, MemoryResult n ms t ∈ evs.
Proof.
  induction evs as [| e evs IH]; intros c n Hn; [by left |].
  unfold store_all in *. simpl in Hn. apply IH in Hn as [Hn | (ms & t & Hin)].
  - destruct e as [d | d | n' ms t]; simpl in Hn; try by left.
    destruct (t >=? _)%Z; simpl in Hn; [| by left].
    apply elem_of_dom in Hn.
    destruct (decide (n' = n)) as [-> | Hne].
    + right. exists ms, t. by left.
    + rewrite lookup_insert_ne in Hn by done. left. by apply elem_of_dom.
  - right. exists ms, t. by right.
Qed.

(** X9. The plugin stores results only under the names of registered
    providers: after the effect has run on everything the two services emit
    for a request, every key of the result store was there before or is the
    name of an item of the registry. *)
Theorem result_store_keys_are_provider_names
    cfg sched order timestamp timestamp' data c :
  Forall (fun e => match e with
                   | MemoryResult n _ _ => n ∈ registry_names cfg
                   | _ => False
                   end)
         (nb_emitted (build_non_blocking_memories cfg order timestamp' (BuildRequest data))
          ++ fan_emitted (blocking_fan_out cfg (messages data) timestamp sched)) /\
  dom (memoriesLastResults
         (store_all
            (nb_emitted
               (build_non_blocking_memories cfg order timestamp' (BuildRequest data))
             ++ fan_emitted (blocking_fan_out cfg (messages data) timestamp sched))
            c))
    ⊆ dom (memoriesLastResults c) ∪ registry_names cfg.
Proof.
  split.
  - apply Forall_forall. intros e He.
    destruct e as [d | d | n ms t].
    + apply elem_of_app in He as [He | He].
      * simpl in He.
        destruct (nb_foldl cfg (messages data) timestamp' order
                    {| nb_emitted := []; nb_logged := [];
                       nb_invoked := invoked non_blocking cfg |}) as [Heq _].
        rewrite Heq in He. simpl in He.
        apply list_elem_of_omap in He as (i & _ & Hi). unfold nb_emission in Hi.
        destruct (non_blocking_item cfg i) as [item |]; simpl in Hi; [| done].
        by destruct (buildMemory item (messages data)).
      * by apply fan_emitted_only_results in He as (? & ? & ?).
    + apply elem_of_app in He as [He | He].
      * simpl in He.
        destruct (nb_foldl cfg (messages data) timestamp' order
                    {| nb_emitted := []; nb_logged := [];
                       nb_invoked := invoked non_blocking cfg |}) as [Heq _].
        rewrite Heq in He. simpl in He.
        apply list_elem_of_omap in He as (i & _ & Hi). unfold nb_emission in Hi.
        destruct (non_blocking_item cfg i) as [item |]; simpl in Hi; [| done].
        by destruct (buildMemory item (messages data)).
      * by apply fan_emitted_only_results in He as (? & ? & ?).
    + apply elem_of_app in He as [He | He].
      * by eapply nb_emitted_names.
      * by eapply fan_emitted_names.
  - intros n Hn. apply store_all_dom in Hn as [Hn | (ms & t & He)].
    + by apply elem_of_union_l.
    + apply elem_of_union_r. apply elem_of_app in He as [He | He].
      * by eapply nb_emitted_names.
      * by eapply fan_emitted_names.
Qed.

(** X11. What the forwarder emits is never taken up again: it adds the
    identifier to [processedRequestsIds] before it emits, so in the context
    it leaves, the interceptor lets its [agent.resources-response] pass
    untouched; the other three collections of the context are as before.
    The plugin cannot loop on its own response. *)
Theorem forwarded_response_passes_the_interceptor data context :
  (re_emit_build_response (BuildResponse data) context).2 = [data] /\
  intercept_core_resources_response
    (re_emit_build_response (BuildResponse data) context).1 "core"
    {| dep_type := "agent.resources-response"; dep_data := data |} = untouched /\
  processedRequestsIds (re_emit_build_response (BuildResponse data) context).1
    = {[requestId data]} ∪ processedRequestsIds context /\
  computedMemoriesCache (re_emit_build_response (BuildResponse data) context).1
    = computedMemoriesCache context.
Proof.
  split; [done |]. split; [| done].
  apply intercept_processed. simpl. apply elem_of_union_l. by apply elem_of_singleton.
Qed.

End Services.

(** ** The builder of memory definitions *)

Section Builder.

(** X12. The methods of the builder compose field by field: [.config]
    replaces the whole configuration, so a later call undoes an earlier one
    and a call without [behavior] puts a non-blocking memory back to
    blocking; the last [.getOutput] wins; methods that set different fields
    commute; none of them changes the name. *)
Theorem builder_methods_compose this input input' params params' f :
  builder_config (builder_config this input) input' = builder_config this input' /\
  behavior
    (config
       (_definition
          (builder_config
             (builder_config this {| behavior_in := Some non_blocking |})
             {| behavior_in := None |}))) = blocking /\
  builder_getOutput (builder_getOutput this params) params'
    = builder_getOutput this params' /\
  builder_getOutput (builder_config this input) params
    = builder_config (builder_getOutput this params) input /\
  builder_onHistoryChange (builder_config this input) f
    = builder_config (builder_onHistoryChange this f) input /\
  name (_definition (builder_config this input)) = name (_definition this) /\
  name (_definition (builder_getOutput this params)) = name (_definition this) /\
  name (_definition (builder_onHistoryChange this f)) = name (_definition this).
Proof. by destruct this as [[]]. Qed.

End Builder.

(** ** The further properties on the example registries *)

Section FurtherExamples.

Lemma outstanding_blocking_provider_holds_the_response_witness :
  computedMemoriesCache initial_context !! stableObjectSHA256 (messages (request "r1"))
    = None /\
  0%nat ∈ [1; 0]%nat /\
  blocking_item slow_then_facts 0 = Some (provider "slow" None Pending) /\
  buildMemory (provider "slow" None Pending) (messages (request "r1")) = Pending /\
  run_emitted
    (build_memories slow_then_facts [1; 0]%nat 11 (BuildRequest (request "r1"))
       initial_context initial_context) = [MemoryResult "facts" [F1] 11] /\
  run_completion
    (build_memories slow_then_facts [1; 0]%nat 11 (BuildRequest (request "r1"))
       initial_context initial_context) = Suspended.
Proof.
  assert (Hmiss : computedMemoriesCache initial_context
                    !! stableObjectSHA256 (messages (request "r1")) = None)
    by apply lookup_empty.
  assert (Hin : 0%nat ∈ [1; 0]%nat) by (right; left).
  assert (Hi : blocking_item slow_then_facts 0 = Some (provider "slow" None Pending))
    by reflexivity.
  assert (Hb : buildMemory (provider "slow" None Pending) (messages (request "r1"))
               = Pending) by reflexivity.
  split; [exact Hmiss |]. split; [exact Hin |]. split; [exact Hi |]. split; [exact Hb |].
  destruct (outstanding_blocking_provider_holds_the_response slow_then_facts
              [1; 0]%nat 11 (request "r1") initial_context initial_context 0
              (provider "slow" None Pending) Hmiss Hin Hi Hb) as (_ & _ & Hcompl).
  split; [vm_compute; reflexivity |].
  destruct Hcompl as [Hs | [err Ht]]; [exact Hs |].
  vm_compute in Ht. discriminate Ht.
Defined.

Lemma registry_without_blocking_provider_witness :
  computedMemoriesCache initial_context !! stableObjectSHA256 (messages (request "r1"))
    = None /\
  Forall (fun item => behavior (config (_definition item)) = non_blocking)
         (items recent_only) /\
  run_emitted
    (build_memories recent_only [0]%nat 11 (BuildRequest (request "r1"))
       initial_context (store_memory_result (MemoryResult "recent" [R1] 5) initial_context))
  = [BuildResponse (with_messages (request "r1") [R1])].
Proof.
  assert (Hmiss : computedMemoriesCache initial_context
                    !! stableObjectSHA256 (messages (request "r1")) = None)
    by apply lookup_empty.
  assert (Hall : Forall (fun item => behavior (config (_definition item)) = non_blocking)
                        (items recent_only))
    by (repeat constructor).
  split; [exact Hmiss |]. split; [exact Hall |].
  destruct (registry_without_blocking_provider recent_only [0]%nat 11 (request "r1")
              initial_context
              (store_memory_result (MemoryResult "recent" [R1] 5) initial_context)
              Hmiss Hall) as [-> _].
  vm_compute. reflexivity.
Defined.

Lemma cache_write_matches_the_response_witness :
  computedMemoriesCache initial_context !! stableObjectSHA256 (messages (request "r1"))
    = None /\
  run_completion
    (build_memories facts_and_recent [0; 1]%nat 11 (BuildRequest (request "r1"))
       initial_context initial_context) = Responded /\
  computedMemoriesCache
    (run_context
       (build_memories facts_and_recent [0; 1]%nat 11 (BuildRequest (request "r1"))
          initial_context initial_context))
    !! stableObjectSHA256 (messages (request "r1"))
  = Some {| hash := stableObjectSHA256 (messages (request "r1")); memories := [F1] |}.
Proof.
  assert (Hmiss : computedMemoriesCache initial_context
                    !! stableObjectSHA256 (messages (request "r1")) = None)
    by apply lookup_empty.
  assert (Hresp : run_completion
                    (build_memories facts_and_recent [0; 1]%nat 11
                       (BuildRequest (request "r1")) initial_context initial_context)
                  = Responded)
    by (vm_compute; reflexivity).
  split; [exact Hmiss |]. split; [exact Hresp |].
  destruct (cache_write_matches_the_response facts_and_recent [0; 1]%nat 11
              (request "r1") initial_context initial_context Hmiss Hresp)
    as (merged & Hlast & -> & _).
  rewrite lookup_insert_eq. do 2 f_equal.
  vm_compute in Hlast. by injection Hlast as <-.
Defined.

End FurtherExamples.

(** ** The Anthropic provider *)

Section AnthropicConversion.

Import Anthropic.
Context `{Platform}.

Lemma filter_system_idem (messages : list Message) :
  List.filter is_system (List.filter is_system messages) = List.filter is_system messages.
Proof.
  induction messages as [|m ms IH]; [done |].
  simpl. destruct (is_system m) eqn:E; simpl; rewrite ?E, IH; done.
Qed.

Lemma filter_other_idem (messages : list Message) :
  List.filter (fun m => negb (is_system m))
    (List.filter (fun m => negb (is_system m)) messages)
  = List.filter (fun m => negb (is_system m)) messages.
Proof.
  induction messages as [|m ms IH]; [done |].
  simpl. destruct (is_system m) eqn:E; simpl; rewrite ?E; simpl; rewrite IH; done.
Qed.

Lemma filter_system_of_other (messages : list Message) :
  List.filter is_system (List.filter (fun m => negb (is_system m)) messages) = [].
Proof.
  induction messages as [|m ms IH]; [done |].
  simpl. destruct (is_system m) eqn:E; simpl; rewrite ?E; done.
Qed.

Lemma filter_other_of_system (messages : list Message) :
  List.filter (fun m => negb (is_system m)) (List.filter is_system messages) = [].
Proof.
  induction messages as [|m ms IH]; [done |].
  simpl. destruct (is_system m) eqn:E; simpl; rewrite ?E; done.
Qed.

(** X13. Only the relative order of the system messages and the relative
    order of the other messages matter to [#toAnthropicMessages]: a history
    converts like the one with its system messages moved to the front.  Every
    converted message comes from a message that is not a system message, so
    the [system] case of [#toAnthropicMessage] is never used on this path. *)
Theorem system_messages_are_hoisted (messages : list Message) :
  toAnthropicMessages messages
  = toAnthropicMessages
      (List.filter is_system messages
       ++ List.filter (fun m => negb (is_system m)) messages)
  /\ Forall (fun param =>
        exists m, m ∈ messages /\ role m <> system /\ param = toAnthropicMessage m)
      (param_messages (toAnthropicMessages messages))
  /\ length (param_messages (toAnthropicMessages messages))
     + length (List.filter is_system messages) = length messages.
Proof.
  split; [| split].
  - unfold toAnthropicMessages.
    rewrite !List.filter_app, filter_system_idem, filter_other_idem,
      filter_system_of_other, filter_other_of_system.
    by rewrite app_nil_r.
  - unfold toAnthropicMessages. simpl.
    apply Forall_forall. intros param Hin.
    apply list_elem_of_fmap in Hin as (m & -> & Hm).
    apply list_elem_of_In, List.filter_In in Hm as [Hm Hrole].
    exists m. split; [by apply list_elem_of_In |]. split; [| done].
    unfold is_system in Hrole. apply negb_true_iff, bool_decide_eq_false in Hrole. done.
  - unfold toAnthropicMessages. simpl. rewrite length_map.
    induction messages as [|m ms IH]; [done |].
    simpl. destruct (is_system m); simpl; lia.
Qed.

Lemma concat_newline_empty (texts : list string) :
  String.concat newline texts = "" <-> texts = [] \/ texts = [""].
Proof.
  split.
  - destruct texts as [|t [|t' ts]]; simpl.
    + by left.
    + intros ->. by right.
    + destruct t; simpl; discriminate.
  - by intros [-> | ->].
Qed.

(** X14. The request carries no [system] field exactly when the history has
    no system message, or a single one whose content is empty; otherwise the
    field is the contents of the system messages joined by line feeds. *)
Theorem system_prompt_omitted_iff (messages : list Message) :
  (system_prompt (toAnthropicMessages messages) = None
   <-> map content (List.filter is_system messages) = []
       \/ map content (List.filter is_system messages) = [""])
  /\ (forall text,
        system_prompt (toAnthropicMessages messages) = Some text
        <-> text <> ""
            /\ text = String.concat newline (map content (List.filter is_system messages))).
Proof.
  unfold toAnthropicMessages. simpl.
  split.
  - rewrite <- concat_newline_empty.
    destruct (decide (_ = "")) as [E | E]; split; intro Hx; try done.
  - intros text. destruct (decide (_ = "")) as [E | E]; split.
    + done.
    + intros [Hne ->]. done.
    + intros [= <-]. done.
    + intros [_ ->]. done.
Qed.

End AnthropicConversion.

Section AnthropicStream.

Import Anthropic.
Context `{Platform}.

Lemma on_event_chunks st event st' chunks :
  on_event st event = inr (st', chunks) ->
  chunks = []
  \/ (exists text, event = ContentBlockDelta (TextDelta text) /\ chunks = [ContentChunk text])
  \/ (event = MessageStop /\ completedTools st = [] /\ chunks = [EndChunk])
  \/ (event = MessageStop /\ completedTools st <> []
      /\ chunks = [ToolsChunk (completedTools st); EndChunk]).
Proof.
  destruct event as [[id name |] | [text | partial |] | | |]; simpl.
  - intros [= <- <-]. by left.
  - intros [= <- <-]. by left.
  - intros [= <- <-]. right; left. by exists text.
  - destruct (currentToolUse st); intros [= <- <-]; by left.
  - intros [= <- <-]. by left.
  - destruct (currentToolUse st) as [use |].
    + destruct (JSON_parse _); [done |]. intros [= <- <-]. by left.
    + intros [= <- <-]. by left.
  - intros [= <- <-]. destruct (decide (completedTools st = [])) as [E | E].
    + right; right; left. done.
    + right; right; right. done.
  - intros [= <- <-]. by left.
Qed.



(** X16. A job receives at most one error chunk, and nothing after it: the
    chunks are error-free, then possibly one error chunk, which is there
    exactly when an error reached the [catch] of the loop. *)
Theorem error_chunk_ends_the_stream (st : StreamState) (stream : list StreamItem) :
  exists chunks,
    Forall (fun chunk => is_error chunk = false) chunks
    /\ match stream_ending st stream with
       | Caught => exists error, stream_loop st stream = chunks ++ [ErrorChunk error]
       | _ => stream_loop st stream = chunks
       end.
Proof.
  revert st. induction stream as [|item rest IH]; intros st.
  - by exists [].
  - destruct item as [[] event | error].
    + by exists [].
    + cbn [stream_loop stream_ending].
      destruct (on_event st event) as [message | [st' chunks]] eqn:Hev.
      * exists []. split; [done |]. by exists message.
      * destruct (IH st') as (more & Hmore & Hend).
        exists (chunks ++ more). split.
        -- apply Forall_app. split; [| done].
           destruct (on_event_chunks _ _ _ _ Hev)
             as [-> | [(text & _ & ->) | [(_ & _ & ->) | (_ & _ & ->)]]];
             repeat constructor.
        -- destruct (stream_ending st' rest).
           ++ by rewrite Hend.
           ++ by rewrite Hend.
           ++ destruct Hend as (error & ->). exists error. by rewrite app_assoc.
    + exists []. split; [done |]. simpl. by eexists.
Qed.

Lemma tools_before_end_loop st stream : tools_before_end (stream_loop st stream).
Proof.
  revert st. induction stream as [|item rest IH]; intros st; [done |].
  destruct item as [[] event | error]; [done | | done].
  cbn [stream_loop].
  destruct (on_event st event) as [message | [st' chunks]] eqn:Hev; [done |].
  destruct (on_event_chunks _ _ _ _ Hev)
    as [-> | [(text & _ & ->) | [(_ & _ & ->) | (_ & Hne & ->)]]]; simpl; auto.
Qed.

Lemma tools_before_end_inv pre tools post :
  tools_before_end (pre ++ ToolsChunk tools :: post) ->
  tools <> [] /\ head post = Some EndChunk.
Proof.
  induction pre as [|c pre IH]; simpl.
  - tauto.
  - destruct c; tauto.
Qed.

(** X17. A tools chunk is never empty and is always directly followed by
    the end chunk. *)
Theorem tools_chunk_is_followed_by_end (st : StreamState) (stream : list StreamItem)
    (pre post : list Chunk) (tools : list CompletedTool) :
  stream_loop st stream = pre ++ ToolsChunk tools :: post ->
  tools <> [] /\ exists post', post = EndChunk :: post'.
Proof.
  intros Heq. pose proof (tools_before_end_loop st stream) as Hwf.
  rewrite Heq in Hwf. apply tools_before_end_inv in Hwf as [Hne Hhd].
  split; [done |]. destruct post as [|c post']; [done |].
  injection Hhd as ->. by eexists.
Qed.

(** X18. Finished tool calls are handed over only at [message_stop]: a
    stream that never yields this event gives the job content and error
    chunks only, neither tools nor end, however many tool calls it
    completed. *)
Theorem tools_wait_for_message_stop (st : StreamState) (stream : list StreamItem) :
  Forall (fun item => is_message_stop item = false) stream ->
  Forall (fun chunk =>
            match chunk with ContentChunk _ | ErrorChunk _ => True | _ => False end)
    (stream_loop st stream).
Proof.
  revert st. induction stream as [|item rest IH]; intros st Hall; [done |].
  apply Forall_cons in Hall as [Hitem Hrest].
  destruct item as [[] event | error]; [done | | by repeat constructor].
  cbn [stream_loop].
  destruct (on_event st event) as [message | [st' chunks]] eqn:Hev;
    [by repeat constructor |].
  apply Forall_app. split; [| by apply IH].
  destruct (on_event_chunks _ _ _ _ Hev)
    as [-> | [(text & _ & ->) | [(-> & _) | (-> & _)]]]; try done.
  by repeat constructor.
Qed.

Lemma fragments_accumulate id name input completed fragments rest :
  stream_loop
    {| currentToolUse := Some {| use_id := id; use_name := name; use_input := input |};
       completedTools := completed |}
    (map (fun fragment => Yield false (ContentBlockDelta (InputJsonDelta fragment)))
       fragments ++ rest)
  = stream_loop
      {| currentToolUse :=
           Some {| use_id := id; use_name := name;
                   use_input := foldl String.append input fragments |};
         completedTools := completed |}
      rest.
Proof.
  revert input. induction fragments as [|f fs IH]; intros input; [done |].
  simpl. apply IH.
Qed.

(** X19. A tool call whose input arrives in fragments is given to the job,
    at [message_stop], with the fragments joined in order and parsed as one
    JSON text ([{}] when there is no input at all); it comes after the tools
    completed before it, whatever call was being assembled before. *)
Theorem tool_call_is_assembled (st : StreamState) (id name : string)
    (fragments : list string) (input : Json) (rest : list StreamItem) :
  let text := foldl String.append "" fragments in
  JSON_parse (if decide (text = "") then "{}" else text) = inr input ->
  stream_loop st (tool_call id name fragments ++ Yield false MessageStop :: rest)
  = ToolsChunk
      (completedTools st
       ++ [{| completed_id := id; completed_name := name; completed_input := input |}])
    :: EndChunk
    :: stream_loop
         {| currentToolUse := None;
            completedTools :=
              completedTools st
              ++ [{| completed_id := id; completed_name := name;
                     completed_input := input |}] |}
         rest.
Proof.
  intros text Hparse. unfold tool_call.
  cbn [app stream_loop on_event].
  rewrite <- app_assoc, fragments_accumulate.
  cbn [app stream_loop on_event currentToolUse completedTools use_input use_id use_name].
  fold text. rewrite Hparse.
  cbn [app stream_loop on_event currentToolUse completedTools].
  destruct (decide (_ = [])) as [E | E]; [by destruct (completedTools st) |].
  done.
Qed.

(** X20. Once the signal is found aborted nothing more reaches the job, not
    even the end chunk: what follows in the stream, and the event at hand,
    have no effect. *)
Theorem aborted_stream_is_cut (st : StreamState) (pre rest : list StreamItem)
    (event : StreamEvent) :
  stream_loop st (pre ++ Yield true event :: rest) = stream_loop st pre
  /\ (stream_ending st pre = Drained ->
      stream_ending st (pre ++ Yield true event :: rest) = Cancelled).
Proof.
  revert st. induction pre as [|item pre IH]; intros st; [done |].
  destruct item as [[] e | error]; [done | | done].
  cbn [app stream_loop stream_ending].
  destruct (on_event st e) as [message | [st' chunks]]; [done |].
  destruct (IH st') as [-> IH2]. done.
Qed.

(** X21. [generateObject] is decided by the first [tool_use] block of the
    response: the blocks before it and everything after it are ignored, its
    name is not looked at, and the result is what the schema makes of its
    input. *)
Theorem first_tool_use_decides {Data : Type} (safeParse : Json -> string + Data)
    (pre post : list ResponseBlock) (id name : string) (input : Json) :
  Forall (fun block => is_tool_use block = false) pre ->
  generateObject safeParse (ResponseContent (pre ++ ResponseToolUse id name input :: post))
  = match safeParse input with
    | inr data => Success data
    | inl message => Failure message
    end.
Proof.
  intros Hpre. unfold generateObject.
  replace (List.find is_tool_use (pre ++ ResponseToolUse id name input :: post))
    with (Some (ResponseToolUse id name input)); [done |].
  induction Hpre as [|b pre Hb _ IH]; [done |].
  simpl. by rewrite Hb.
Qed.

End AnthropicStream.

Section AnthropicConfig.

Import Anthropic.

(** X22. A key that is only in the environment does not make a provider:
    for a config without [apiKey] the schema fills in the environment's key,
    yet the constructor never builds a client, whatever [LLMBase] does with
    the config. *)
Theorem environment_key_alone_is_refused (base : ConfigInput -> bool)
    (env_key : option string) (input : ConfigInput) :
  apiKey input = None \/ apiKey input = Some "" ->
  (forall key, AnthropicLLM_new base input <> Constructed key)
  /\ (forall config,
        apiKey input = None ->
        anthropicLLMConfigSchema_parse env_key input = Some config ->
        config_apiKey config = default "" env_key).
Proof.
  intros Hkey. split.
  - intros key. unfold AnthropicLLM_new.
    destruct (base input); [| done].
    destruct Hkey as [-> | ->]; done.
  - intros config Hnone. unfold anthropicLLMConfigSchema_parse.
    rewrite Hnone. destruct (_ && _); [| done].
    by intros [= <-].
Qed.

End AnthropicConfig.

Section AnthropicExamples.

Import Anthropic.

#[local] Existing Instance text_platform.

Lemma tools_chunk_is_followed_by_end_witness :
  stream_loop stream_start (tool_call "t1" "search" ["{}"] ++ [Yield false MessageStop])
  = [] ++ ToolsChunk [search_tool] :: [EndChunk]
  /\ ([search_tool] <> [] /\ exists post', [EndChunk] = EndChunk :: post').
Proof.
  assert (Heq : stream_loop stream_start
                  (tool_call "t1" "search" ["{}"] ++ [Yield false MessageStop])
                = [] ++ ToolsChunk [search_tool] :: [EndChunk]) by reflexivity.
  split; [exact Heq |].
  exact (tools_chunk_is_followed_by_end _ _ _ _ _ Heq).
Defined.

Lemma tools_wait_for_message_stop_witness :
  Forall (fun item => is_message_stop item = false) unfinished_stream
  /\ Forall (fun chunk =>
               match chunk with ContentChunk _ | ErrorChunk _ => True | _ => False end)
       (stream_loop stream_start unfinished_stream).
Proof.
  assert (Hall : Forall (fun item => is_message_stop item = false) unfinished_stream)
    by (repeat constructor).
  split; [exact Hall |].
  exact (tools_wait_for_message_stop stream_start unfinished_stream Hall).
Defined.

Lemma tool_call_is_assembled_witness :
  JSON_parse
    (if decide (foldl String.append "" ["{"; "}"] = "") then "{}"
     else foldl String.append "" ["{"; "}"])
  = inr ("{}" : Json)
  /\ stream_loop stream_start
       (tool_call "t1" "search" ["{"; "}"] ++ Yield false MessageStop :: [])
     = ToolsChunk (completedTools stream_start ++ [search_tool])
       :: EndChunk
       :: stream_loop
            {| currentToolUse := None;
               completedTools := completedTools stream_start ++ [search_tool] |}
            [].
Proof.
  assert (Hparse : JSON_parse
                     (if decide (foldl String.append "" ["{"; "}"] = "") then "{}"
                      else foldl String.append "" ["{"; "}"])
                   = inr ("{}" : Json)) by reflexivity.
  split; [exact Hparse |].
  exact (tool_call_is_assembled stream_start "t1" "search" ["{"; "}"] "{}" [] Hparse).
Defined.

Lemma first_tool_use_decides_witness :
  Forall (fun block => is_tool_use block = false) [ResponseText "ok"; ResponseOther]
  /\ generateObject as_text
       (ResponseContent
          ([ResponseText "ok"; ResponseOther]
           ++ ResponseToolUse "t1" "other_tool" "{}" :: [ResponseToolUse "t2" "x" "[]"]))
     = match as_text "{}" with
       | inr data => Success data
       | inl message => Failure message
       end.
Proof.
  assert (Hpre : Forall (fun block => is_tool_use block = false)
                   [ResponseText "ok"; ResponseOther]) by (repeat constructor).
  split; [exact Hpre |].
  exact (first_tool_use_decides as_text _ [ResponseToolUse "t2" "x" "[]"]
           "t1" "other_tool" "{}" Hpre).
Defined.

Lemma environment_key_alone_is_refused_witness :
  (apiKey no_key = None \/ apiKey no_key = Some "")
  /\ ((forall key, AnthropicLLM_new any_base no_key <> Constructed key)
      /\ (forall config,
            apiKey no_key = None ->
            anthropicLLMConfigSchema_parse (Some "sk-env") no_key = Some config ->
            config_apiKey config = default "" (Some "sk-env"))).
Proof.
  assert (Hkey : apiKey no_key = None \/ apiKey no_key = Some "") by (left; reflexivity).
  split; [exact Hkey |].
  exact (environment_key_alone_is_refused any_base (Some "sk-env") no_key Hkey).
Defined.

End AnthropicExamples.
